(** * dds_glossary: SKOS ingestion, localisation and query layer

    A shallow embedding of [dds_glossary/model.py],
    [dds_glossary/controllers.py] and [dds_glossary/database.py].

    Python values are embedded as follows.
    - [str] is [string]; a value that may be [None] is [option string]
      ([Element.get], [Element.text] and [Element.find] of lxml return
      [None] on a miss).
    - a [dict] is a [gmap]; dictionary equality is extensional, as in Python.
      The label mappings are lists of items instead: the order of their
      items matters when they are written to a JSONB column.
    - a function that can raise returns [result]; [Raise e] is the
      propagating exception.
    - the database is an explicit state of four tables, threaded through
      the functions that write to it. *)

From stdpp Require Import base option list gmap strings fin_maps sorting.

Open Scope string_scope.

(** ** Exceptions and the error monad *)

Inductive ExceptionType :=
  | KeyError | SyntaxError | TypeError | AttributeError | ValueError
  | IntegrityError | MultipleResultsFound | OSError | OtherError.

Record Exception := mkException { exc_type : ExceptionType; exc_msg : string }.

(** [str(error)] *)
Definition str (error : Exception) : string := exc_msg error.

Inductive result (A : Type) : Type :=
  | Ok (a : A)
  | Raise (e : Exception).
Arguments Ok {A} a.
Arguments Raise {A} e.

#[global] Instance result_ret : MRet result := fun A a => Ok a.
#[global] Instance result_bind : MBind result := fun A B f m =>
  match m with Ok a => f a | Raise e => Raise e end.
#[global] Instance result_fmap : FMap result := fun A B f m =>
  match m with Ok a => Ok (f a) | Raise e => Raise e end.

#[global] Instance ExceptionType_eq_dec : EqDecision ExceptionType.
Proof. solve_decision. Defined.
#[global] Instance Exception_eq_dec : EqDecision Exception.
Proof. solve_decision. Defined.

(** ** lxml elements *)

(** An element as [lxml.etree] presents it: [tag] and the keys of [attrib]
    are in Clark notation ("{uri}local"); [nsmap] maps the prefixes in
    scope to namespace URIs.  Every path used below is prefixed, so the
    entry of the default namespace (key [None]) is never consulted and is
    left out. *)
#[warnings="-register-all"]
Inductive Element : Type := mkElement {
  tag : string;
  attrib : gmap string string;
  text : option string;
  nsmap : gmap string string;
  children : list Element
}.

(** "{uri}local" *)
Definition clark (uri local : string) : string := "{" ++ uri ++ "}" ++ local.

(** [element.nsmap[prefix]] *)
Definition nsmap_getitem (element : Element) (prefix : string) : result string :=
  match nsmap element !! prefix with
  | Some uri => Ok uri
  | None => Raise (mkException KeyError ("'" ++ prefix ++ "'"))
  end.

(** [element.get(key)] *)
Definition get (element : Element) (key : string) : option string :=
  attrib element !! key.

(** The direct children of [element] tagged [local] in the namespace
    [uri]: what [findall] selects once the prefix is resolved. *)
Definition sub_elements (element : Element) (uri local : string) : list Element :=
  filter (fun child => tag child = clark uri local) (children element).

(** [element.findall("prefix:local", namespaces=element.nsmap)]: the direct
    children with that qualified tag, in document order.  ElementPath
    raises [SyntaxError] for a prefix that is not in the prefix map. *)
Definition findall (element : Element) (prefix local : string)
  : result (list Element) :=
  match nsmap element !! prefix with
  | Some uri =>
      Ok (sub_elements element uri local)
  | None =>
      Raise (mkException SyntaxError ("prefix '" ++ prefix ++ "' not found in prefix map"))
  end.

(** [element.find("prefix:local", namespaces=element.nsmap)] *)
Definition find (element : Element) (prefix local : string)
  : result (option Element) :=
  head <$> findall element prefix local.

(** ** model.py *)

Inductive SemanticRelationType :=
  | BROADER | NARROWER | RELATED | BROADER_TRANSITIVE | NARROWER_TRANSITIVE.

#[global] Instance SemanticRelationType_eq_dec : EqDecision SemanticRelationType.
Proof. solve_decision. Defined.

(** [relation_type.value] *)
Definition value (t : SemanticRelationType) : string :=
  match t with
  | BROADER => "broader"
  | NARROWER => "narrower"
  | RELATED => "related"
  | BROADER_TRANSITIVE => "broaderTransitive"
  | NARROWER_TRANSITIVE => "narrowerTransitive"
  end.

(** Iteration order of [for relation_type in SemanticRelationType]. *)
Definition SemanticRelationType_members : list SemanticRelationType :=
  [BROADER; NARROWER; RELATED; BROADER_TRANSITIVE; NARROWER_TRANSITIVE].

(** A language-tagged mapping as the dictionary comprehensions build it:
    the key is [label.get(xml:lang)] and the value is [label.text], either
    of which is [None] when the document leaves it out.  A Python [dict]
    keeps its items in the order in which their keys were first assigned,
    and that is the order in which [json.dumps] writes them, so a mapping
    is the list of its items. *)
Record LangDict := mkLangDict { items : list (option string * option string) }.

#[global] Instance LangDict_eq_dec : EqDecision LangDict.
Proof. solve_decision. Defined.

(** [{}] *)
#[global] Instance LangDict_empty : Empty LangDict := mkLangDict [].

(** [d.get(key)]: the value of the item under [key] (of the last one,
    should a list hold several). *)
#[global] Instance LangDict_lookup : Lookup (option string) (option string) LangDict :=
  fun key d => snd <$> last (filter (fun item => item.1 = key) (items d)).

(** [d[key] = v]: a key the mapping has keeps its place and takes the new
    value, a new key goes to the end. *)
#[global] Instance LangDict_insert : Insert (option string) (option string) LangDict :=
  fun key v d =>
    mkLangDict (if decide (key ∈ (items d).*1)
                then (fun item => if decide (item.1 = key) then (key, v) else item)
                       <$> items d
                else items d ++ [(key, v)]).

(** The dictionary returned by [to_dict]. *)
Abbreviation Dict := (gmap string (option string)).

Module Base.

Definition xml_namespace : string := "{http://www.w3.org/XML/1998/namespace}".

(** [d.get(key, default)] *)
Definition dict_get {K V D} `{Lookup K V D} (d : D) (key : K) (default : V) : V :=
  match d !! key with
  | Some v => v
  | None => default
  end.

Definition get_sub_element_text (element : Element) (prefix local : string)
    (default_value : option string) : result (option string) :=
  sub_element ← find element prefix local;
  mret (match sub_element with
        | Some e => text e
        | None => default_value
        end).

Definition get_in_language (attribute : LangDict) (lang : string) : option string :=
  dict_get attribute (Some lang) (dict_get attribute (Some "en") (Some "")).

(** [{label.get(f"{cls.xml_namespace}lang"): label.text for label in labels}];
    a later label of the same language replaces an earlier one. *)
Definition lang_dict (labels : list Element) : LangDict :=
  foldl (fun d label => <[get label (xml_namespace ++ "lang") := text label]> d)
        ∅ labels.

End Base.

Module ConceptScheme.

(** The mapped columns.  The [concepts] relationship is the other side
    of [Concept.concept_schemes], where the memberships are kept. *)
Record t := mk {
  iri : option string;
  notation : option string;
  scopeNote : option string;
  prefLabels : LangDict
}.

#[global] Instance eq_dec : EqDecision t.
Proof. solve_decision. Defined.

Definition from_xml_element (element : Element) : result t :=
  rdf ← nsmap_getitem element "rdf";
  notation ← Base.get_sub_element_text element "core" "notation" (Some "");
  scopeNote ← Base.get_sub_element_text element "core" "scopeNote" (Some "");
  labels ← findall element "core" "prefLabel";
  mret {| iri := get element (clark rdf "about");
          notation := notation;
          scopeNote := scopeNote;
          prefLabels := Base.lang_dict labels |}.

Definition to_dict (self : t) (lang : string) : Dict :=
  <["prefLabel" := Base.get_in_language (prefLabels self) lang]>
  (<["scopeNote" := scopeNote self]>
  (<["notation" := notation self]>
  (<["iri" := iri self]> ∅))).

End ConceptScheme.

Module Concept.

Record t := mk {
  iri : option string;
  identifier : option string;
  notation : option string;
  prefLabels : LangDict;
  altLabels : LangDict;
  scopeNotes : LangDict;
  concept_schemes : list ConceptScheme.t
}.

#[global] Instance eq_dec : EqDecision t.
Proof. solve_decision. Defined.

Definition from_xml_element (element : Element)
    (concept_schemes : list ConceptScheme.t) : result t :=
  scheme_elements ← findall element "core" "inScheme";
  scheme_iris ← mapM (fun scheme_element =>
                        rdf ← nsmap_getitem element "rdf";
                        mret (get scheme_element (clark rdf "resource")))
                     scheme_elements;
  rdf ← nsmap_getitem element "rdf";
  identifier ← Base.get_sub_element_text element "x_1.1" "identifier" (Some "");
  notation ← Base.get_sub_element_text element "core" "notation" (Some "");
  prefs ← findall element "core" "prefLabel";
  alts ← findall element "core" "altLabel";
  notes ← findall element "core" "scopeNote";
  mret {| iri := get element (clark rdf "about");
          identifier := identifier;
          notation := notation;
          prefLabels := Base.lang_dict prefs;
          altLabels := Base.lang_dict alts;
          scopeNotes := Base.lang_dict notes;
          concept_schemes :=
            filter (fun concept_scheme =>
                      ConceptScheme.iri concept_scheme ∈ scheme_iris)
                   concept_schemes |}.

Definition missing_concept_schemes : Exception :=
  mkException TypeError
    "Concept.from_xml_element() missing 1 required positional argument: 'concept_schemes'".

(** A call [Concept.from_xml_element(element, ...)]: [concept_schemes] is
    what the call site passes for the second parameter, [None] when it
    passes nothing.  The parameter has no default, so a call that leaves
    it out raises [TypeError] before the body runs. *)
Definition call_from_xml_element (element : Element)
    (concept_schemes : option (list ConceptScheme.t)) : result t :=
  match concept_schemes with
  | Some concept_schemes => from_xml_element element concept_schemes
  | None => Raise missing_concept_schemes
  end.

Definition to_dict (self : t) (lang : string) : Dict :=
  <["scopeNote" := Base.get_in_language (scopeNotes self) lang]>
  (<["altLabel" := Base.get_in_language (altLabels self) lang]>
  (<["prefLabel" := Base.get_in_language (prefLabels self) lang]>
  (<["notation" := notation self]>
  (<["identifier" := identifier self]>
  (<["iri" := iri self]> ∅))))).

End Concept.

Module SemanticRelation.

Record t := mk {
  type : SemanticRelationType;
  source_concept_iri : option string;
  target_concept_iri : option string
}.

#[global] Instance eq_dec : EqDecision t.
Proof. solve_decision. Defined.

Definition from_xml_element (element : Element) : result (list t) :=
  relations_by_type ←
  mapM (fun relation_type =>
          relations ← findall element "core" (value relation_type);
          mapM (fun relation =>
                  rdf_about ← nsmap_getitem element "rdf";
                  rdf_resource ← nsmap_getitem element "rdf";
                  mret {| type := relation_type;
                          source_concept_iri := get element (clark rdf_about "about");
                          target_concept_iri := get relation (clark rdf_resource "resource") |})
               relations)
       SemanticRelationType_members;
  mret (mjoin relations_by_type).

Definition to_dict (self : t) : Dict :=
  <["target_concept_iri" := target_concept_iri self]>
  (<["source_concept_iri" := source_concept_iri self]>
  (<["type" := Some (value (type self))]> ∅)).

End SemanticRelation.

(** The qualified tags of the five relation types. *)
Definition relation_tags (core : string) : list string :=
  (fun relation_type => clark core (value relation_type))
    <$> SemanticRelationType_members.

(** The relation a sub-element [relation] of [element] stands for. *)
Definition relation_record (element : Element) (rdf : string)
    (relation_type : SemanticRelationType) (relation : Element) : SemanticRelation.t :=
  {| SemanticRelation.type := relation_type;
     SemanticRelation.source_concept_iri := get element (clark rdf "about");
     SemanticRelation.target_concept_iri := get relation (clark rdf "resource") |}.

(** Any of the three mapped classes, for the methods of [Base] that are
    shared by all of them. *)
Inductive Record_ :=
  | RScheme (s : ConceptScheme.t)
  | RConcept (c : Concept.t)
  | RRelation (r : SemanticRelation.t).

#[global] Instance Record_eq_dec : EqDecision Record_.
Proof. solve_decision. Defined.

(** [self.to_dict()] with the default argument [lang="en"] where the
    method has one. *)
Definition to_dict_default (self : Record_) : Dict :=
  match self with
  | RScheme s => ConceptScheme.to_dict s "en"
  | RConcept c => Concept.to_dict c "en"
  | RRelation r => SemanticRelation.to_dict r
  end.

(** [Base.__eq__] *)
Definition __eq__ (self other : Record_) : bool :=
  bool_decide (to_dict_default self = to_dict_default other).

(** *** The declared types

    [Mapped[str]] and [Mapped[dict[str, str]]] promise strings; Python does
    not enforce it, and the parsers above can store [None].  A record is
    well typed when its fields hold what the annotations say. *)

Definition lang_dict_typed (d : LangDict) : Prop :=
  ∀ k v, d !! k = Some v → is_Some k ∧ is_Some v.

Definition ConceptScheme_typed (s : ConceptScheme.t) : Prop :=
  is_Some (ConceptScheme.iri s) ∧ is_Some (ConceptScheme.notation s) ∧
  is_Some (ConceptScheme.scopeNote s) ∧ lang_dict_typed (ConceptScheme.prefLabels s).

Definition Concept_typed (c : Concept.t) : Prop :=
  is_Some (Concept.iri c) ∧ is_Some (Concept.identifier c) ∧
  is_Some (Concept.notation c) ∧ lang_dict_typed (Concept.prefLabels c) ∧
  lang_dict_typed (Concept.altLabels c) ∧ lang_dict_typed (Concept.scopeNotes c).

Definition SemanticRelation_typed (r : SemanticRelation.t) : Prop :=
  is_Some (SemanticRelation.source_concept_iri r) ∧
  is_Some (SemanticRelation.target_concept_iri r).

(** Every value of a returned dictionary is a string. *)
Definition string_valued (d : Dict) : Prop :=
  ∀ k v, d !! k = Some v → is_Some v.

(** ** database.py *)

Module database.

(** *** The persisted schema

    Four tables, as [model.py] declares them: [Mapped[str]] columns are
    NOT NULL, [iri] is the primary key of [concept_schemes] and of
    [concepts], the pair of endpoints is the primary key of
    [semantic_relations] and both endpoints are foreign keys into
    [concepts]; [in_scheme] is keyed by its two columns, each a foreign
    key.  A [Mapped[dict[str, str]]] column is JSONB
    ([Base.type_annotation_map]) and holds a JSON object.  Strings are
    text the server stores as it is: no NUL character, which an XML
    document cannot carry either. *)

(** A JSON object of strings and [null]s as JSONB keeps it: every key a
    string, no key twice. *)
Abbreviation JSONB := (gmap string (option string)).

Record ConceptSchemeRow := {
  cs_iri : string;
  cs_notation : string;
  cs_scopeNote : string;
  cs_prefLabels : JSONB
}.

Record ConceptRow := {
  c_iri : string;
  c_identifier : string;
  c_notation : string;
  c_prefLabels : JSONB;
  c_altLabels : JSONB;
  c_scopeNotes : JSONB
}.

Record InSchemeRow := {
  scheme_iri : string;
  concept_iri : string
}.

Record SemanticRelationRow := {
  r_type : SemanticRelationType;
  r_source_concept_iri : string;
  r_target_concept_iri : string
}.

#[global] Instance ConceptSchemeRow_eq_dec : EqDecision ConceptSchemeRow.
Proof. solve_decision. Defined.
#[global] Instance ConceptRow_eq_dec : EqDecision ConceptRow.
Proof. solve_decision. Defined.
#[global] Instance InSchemeRow_eq_dec : EqDecision InSchemeRow.
Proof. solve_decision. Defined.
#[global] Instance SemanticRelationRow_eq_dec : EqDecision SemanticRelationRow.
Proof. solve_decision. Defined.

Record DB := {
  concept_schemes : list ConceptSchemeRow;
  concepts : list ConceptRow;
  in_scheme : list InSchemeRow;
  semantic_relations : list SemanticRelationRow
}.

(** The tables right after [Base.metadata.create_all] on a database
    that has none of them. *)
Definition empty_db : DB :=
  {| concept_schemes := []; concepts := []; in_scheme := [];
     semantic_relations := [] |}.

(** *** INSERT, with the constraints of the schema *)

Definition not_null (column : string) (v : option string) : result string :=
  match v with
  | Some s => Ok s
  | None => Raise (mkException IntegrityError
                     ("null value violates not-null constraint: " ++ column))
  end.

Definition unique_violation (table : string) : Exception :=
  mkException IntegrityError ("duplicate key value violates unique constraint: " ++ table).

Definition foreign_key_violation (table : string) : Exception :=
  mkException IntegrityError ("insert violates foreign key constraint: " ++ table).

(** The key [json.dumps] writes for a key of a mapping: a string as it
    is, [None] as "null". *)
Definition json_key (key : option string) : string := default "null" key.

(** The object a JSONB column keeps for a mapping.  [json.dumps] writes
    the items in their order, a [None] value as [null]; of two items that
    come out under the same key PostgreSQL keeps the later one. *)
Definition jsonb (d : LangDict) : JSONB :=
  foldl (fun object item => <[json_key item.1 := item.2]> object) ∅ (items d).

(** The order in which JSONB keeps, and returns, the keys of an object:
    the shorter key first, keys of one length bytewise. *)
Definition jsonb_key_le (key1 key2 : string) : Prop :=
  String.length key1 < String.length key2 ∨
  String.length key1 = String.length key2 ∧ String.leb key1 key2 = true.

#[global] Instance jsonb_key_le_dec key1 key2 : Decision (jsonb_key_le key1 key2).
Proof. unfold jsonb_key_le. apply _. Defined.

(** The mapping a stored object is read back as: string keys, in the
    order of the column. *)
Definition from_jsonb (object : JSONB) : LangDict :=
  mkLangDict ((fun item : string * option string => (Some item.1, item.2))
                <$> merge_sort (fun item1 item2 => jsonb_key_le item1.1 item2.1)
                               (map_to_list object)).

(** The row an object is written as; a [None] in a NOT NULL column is
    refused. *)
Definition concept_scheme_row (s : ConceptScheme.t) : result ConceptSchemeRow :=
  iri ← not_null "iri" (ConceptScheme.iri s);
  notation ← not_null "notation" (ConceptScheme.notation s);
  scopeNote ← not_null "scopeNote" (ConceptScheme.scopeNote s);
  mret {| cs_iri := iri; cs_notation := notation; cs_scopeNote := scopeNote;
          cs_prefLabels := jsonb (ConceptScheme.prefLabels s) |}.

Definition concept_row (c : Concept.t) : result ConceptRow :=
  iri ← not_null "iri" (Concept.iri c);
  identifier ← not_null "identifier" (Concept.identifier c);
  notation ← not_null "notation" (Concept.notation c);
  mret {| c_iri := iri; c_identifier := identifier; c_notation := notation;
          c_prefLabels := jsonb (Concept.prefLabels c);
          c_altLabels := jsonb (Concept.altLabels c);
          c_scopeNotes := jsonb (Concept.scopeNotes c) |}.

(** One row of the join table: the scheme's key and the concept's key. *)
Definition in_scheme_row (link : option string * option string) : result InSchemeRow :=
  scheme ← not_null "scheme_iri" link.1;
  concept ← not_null "concept_iri" link.2;
  mret {| scheme_iri := scheme; concept_iri := concept |}.

Definition semantic_relation_row (r : SemanticRelation.t) : result SemanticRelationRow :=
  source ← not_null "source_concept_iri" (SemanticRelation.source_concept_iri r);
  target ← not_null "target_concept_iri" (SemanticRelation.target_concept_iri r);
  mret {| r_type := SemanticRelation.type r;
          r_source_concept_iri := source;
          r_target_concept_iri := target |}.

(** The primary key of a relation row. *)
Definition endpoints (row : SemanticRelationRow) : string * string :=
  (r_source_concept_iri row, r_target_concept_iri row).

Definition insert_concept_scheme (s : ConceptScheme.t) (db : DB) : result DB :=
  row ← concept_scheme_row s;
  if bool_decide (cs_iri row ∈ cs_iri <$> concept_schemes db)
  then Raise (unique_violation "concept_schemes")
  else mret {| concept_schemes := concept_schemes db ++ [row];
               concepts := concepts db;
               in_scheme := in_scheme db;
               semantic_relations := semantic_relations db |}.

Definition insert_concept (c : Concept.t) (db : DB) : result DB :=
  row ← concept_row c;
  if bool_decide (c_iri row ∈ c_iri <$> concepts db)
  then Raise (unique_violation "concepts")
  else mret {| concept_schemes := concept_schemes db;
               concepts := concepts db ++ [row];
               in_scheme := in_scheme db;
               semantic_relations := semantic_relations db |}.

Definition insert_in_scheme (link : option string * option string) (db : DB)
  : result DB :=
  row ← in_scheme_row link;
  if bool_decide (row ∈ in_scheme db)
  then Raise (unique_violation "in_scheme")
  else if bool_decide (scheme_iri row ∈ cs_iri <$> concept_schemes db)
            && bool_decide (concept_iri row ∈ c_iri <$> concepts db)
  then mret {| concept_schemes := concept_schemes db;
               concepts := concepts db;
               in_scheme := in_scheme db ++ [row];
               semantic_relations := semantic_relations db |}
  else Raise (foreign_key_violation "in_scheme").

Definition insert_semantic_relation (r : SemanticRelation.t) (db : DB)
  : result DB :=
  row ← semantic_relation_row r;
  if bool_decide (endpoints row ∈ endpoints <$> semantic_relations db)
  then Raise (unique_violation "semantic_relations")
  else if bool_decide (r_source_concept_iri row ∈ c_iri <$> concepts db)
            && bool_decide (r_target_concept_iri row ∈ c_iri <$> concepts db)
  then mret {| concept_schemes := concept_schemes db;
               concepts := concepts db;
               in_scheme := in_scheme db;
               semantic_relations := semantic_relations db ++ [row] |}
  else Raise (foreign_key_violation "semantic_relations").

(** The statements of one table, run one after the other on the open
    transaction; the first one that fails stops the flush and leaves
    the rows inserted before it in the transaction. *)
Fixpoint insert_all {A} (insert : A → DB → result DB) (objects : list A)
    (transaction : DB) : DB * result unit :=
  match objects with
  | [] => (transaction, Ok ())
  | object :: objects =>
      match insert object transaction with
      | Ok transaction => insert_all insert objects transaction
      | Raise e => (transaction, Raise e)
      end
  end.

(** *** sqlalchemy.orm.Session *)

(** [committed] is the stored state, [transaction] what this session's
    open transaction sees, [new] the pending objects in the order they
    were added. *)
Record Session := {
  committed : DB;
  transaction : DB;
  new : list Record_
}.

(** [Session(engine)] *)
Definition Session_open (db : DB) : Session :=
  {| committed := db; transaction := db; new := [] |}.

(** [session.add(obj)] with the save-update cascade along
    [Concept.concept_schemes]: a scheme a concept refers to becomes
    pending with it, unless it already is.  Objects are told apart by
    their contents: the objects [parse_dataset] hands over are built one
    per element, and a concept refers to the very schemes of the batch.
    The cascade the other way, from a scheme to the concepts that refer
    to it, reaches only concepts built against that scheme, which for the
    lists of one parsed document are the concepts of the batch. *)
Definition add (session : Session) (obj : Record_) : Session :=
  let cascaded :=
    match obj with
    | RConcept c =>
        RScheme <$> filter (fun s => RScheme s ∉ new session)
                           (Concept.concept_schemes c)
    | _ => []
    end in
  {| committed := committed session;
     transaction := transaction session;
     new := new session ++ obj :: cascaded |}.

(** [session.add_all(objs)] *)
Definition add_all (session : Session) (objs : list Record_) : Session :=
  foldl add session objs.

Definition pending_schemes (objs : list Record_) : list ConceptScheme.t :=
  omap (fun o => match o with RScheme s => Some s | _ => None end) objs.
Definition pending_concepts (objs : list Record_) : list Concept.t :=
  omap (fun o => match o with RConcept c => Some c | _ => None end) objs.
Definition pending_relations (objs : list Record_) : list SemanticRelation.t :=
  omap (fun o => match o with RRelation r => Some r | _ => None end) objs.

(** The rows of [in_scheme] a pending concept brings. *)
Definition links (c : Concept.t) : list (option string * option string) :=
  (fun s => (ConceptScheme.iri s, Concept.iri c)) <$> Concept.concept_schemes c.

(** The unit of work: the pending objects are written table by table in
    the order of the foreign keys. *)
Definition flush (session : Session) : Session * result unit :=
  let after (step : DB → DB * result unit) (st : DB * result unit) :=
    match st.2 with
    | Ok _ => step st.1
    | Raise e => st
    end in
  let st := insert_all insert_concept_scheme
              (pending_schemes (new session)) (transaction session) in
  let st := after (insert_all insert_concept (pending_concepts (new session))) st in
  let st := after (insert_all insert_in_scheme
                     (pending_concepts (new session) ≫= links)) st in
  let st := after (insert_all insert_semantic_relation
                     (pending_relations (new session))) st in
  ({| committed := committed session;
      transaction := st.1;
      new := match st.2 with Ok _ => [] | Raise _ => new session end |},
   st.2).

(** [session.commit()]: flush, then make the transaction the stored
    state.  A failing flush raises and nothing is committed. *)
Definition commit (session : Session) : Session * result unit :=
  let '(session, flushed) := flush session in
  match flushed with
  | Ok _ =>
      ({| committed := transaction session;
          transaction := transaction session;
          new := new session |}, Ok ())
  | Raise e => (session, Raise e)
  end.

(** [Session.__exit__]: closing the session rolls back whatever its
    transaction has not committed; the stored state is what remains. *)
Definition close (session : Session) : DB := committed session.

Definition save_dataset (engine : DB)
    (concept_schemes : list ConceptScheme.t)
    (concepts : list Concept.t)
    (semantic_relations : list SemanticRelation.t) : DB * result unit :=
  let session := Session_open engine in
  let session := add_all session (RScheme <$> concept_schemes) in
  let session := add_all session (RConcept <$> concepts) in
  let session := add_all session (RRelation <$> semantic_relations) in
  let '(session, committed) := commit session in
  (close session, committed).

(** *** Loading rows back into mapped objects *)

Definition load_concept_scheme (row : ConceptSchemeRow) : ConceptScheme.t :=
  {| ConceptScheme.iri := Some (cs_iri row);
     ConceptScheme.notation := Some (cs_notation row);
     ConceptScheme.scopeNote := Some (cs_scopeNote row);
     ConceptScheme.prefLabels := from_jsonb (cs_prefLabels row) |}.

(** The columns are loaded with the row.  The [concept_schemes]
    relationship is lazy: its value here is what the join through
    [in_scheme] selects while the session is open.  The queries below
    return their objects once the session is closed, when that attribute
    can no longer be read; the column attributes, all that [to_dict]
    reads, stay. *)
Definition load_concept (db : DB) (row : ConceptRow) : Concept.t :=
  {| Concept.iri := Some (c_iri row);
     Concept.identifier := Some (c_identifier row);
     Concept.notation := Some (c_notation row);
     Concept.prefLabels := from_jsonb (c_prefLabels row);
     Concept.altLabels := from_jsonb (c_altLabels row);
     Concept.scopeNotes := from_jsonb (c_scopeNotes row);
     Concept.concept_schemes :=
       load_concept_scheme <$>
       filter (fun s => {| scheme_iri := cs_iri s; concept_iri := c_iri row |}
                          ∈ in_scheme db)
              (concept_schemes db) |}.

Definition load_semantic_relation (row : SemanticRelationRow) : SemanticRelation.t :=
  {| SemanticRelation.type := r_type row;
     SemanticRelation.source_concept_iri := Some (r_source_concept_iri row);
     SemanticRelation.target_concept_iri := Some (r_target_concept_iri row) |}.

(** *** Queries *)

(** The attributes the declarative mapping puts on the class [Concept]. *)
Definition Concept_attributes : list string :=
  ["iri"; "identifier"; "notation"; "prefLabels"; "altLabels"; "scopeNotes";
   "concept_schemes"].

(** [Concept.<name>]: attribute access on the class. *)
Definition Concept_getattr (name : string) : result string :=
  if bool_decide (name ∈ Concept_attributes)
  then Ok name
  else Raise (mkException AttributeError
                ("type object 'Concept' has no attribute '" ++ name ++ "'")).

(** The value a row has in a string column of [concepts]. *)
Definition Concept_column (attribute : string) (row : ConceptRow) : option string :=
  if bool_decide (attribute = "iri") then Some (c_iri row)
  else if bool_decide (attribute = "identifier") then Some (c_identifier row)
  else if bool_decide (attribute = "notation") then Some (c_notation row)
  else None.

(** [.where(Concept.<attribute> == v)] *)
Definition where_eq (attribute v : string) (rows : list ConceptRow) : list ConceptRow :=
  filter (fun row => Concept_column attribute row = Some v) rows.

(** [.one_or_none()] *)
Definition one_or_none {A} (rows : list A) : result (option A) :=
  match rows with
  | [] => Ok None
  | [row] => Ok (Some row)
  | _ => Raise (mkException MultipleResultsFound
                  "Multiple rows were found when one or none was required")
  end.

Definition get_concept_schemes (engine : DB) : list ConceptScheme.t :=
  load_concept_scheme <$> concept_schemes engine.

Definition get_concepts (engine : DB) (concept_scheme_iri : string)
  : result (list Concept.t) :=
  column ← Concept_getattr "scheme_iri";
  mret (load_concept engine <$> where_eq column concept_scheme_iri (concepts engine)).

Definition get_concept (engine : DB) (concept_iri : string)
  : result (option Concept.t) :=
  column ← Concept_getattr "iri";
  one_or_none (load_concept engine <$> where_eq column concept_iri (concepts engine)).

Definition get_relations (engine : DB) (concept_iri : string)
  : list SemanticRelation.t :=
  load_semantic_relation <$>
  filter (fun row => r_source_concept_iri row = concept_iri
                     ∨ r_target_concept_iri row = concept_iri)
         (semantic_relations engine).

(** [init_engine]: [environ] is the process environment, [database]
    the database at the configured URL if it exists.  The result is the
    state of that database once the engine is ready. *)
Definition init_engine (database_url : option string) (drop_database_flag : bool)
    (environ : gmap string string) (database : option DB) : result DB :=
  let database_url :=
    match database_url with
    | None => environ !! "DATABASE_URL"
    | Some _ => database_url
    end in
  match database_url with
  | None | Some "" =>
      Raise (mkException ValueError "DATABASE_URL environment variable is not set.")
  | Some _ =>
      Ok (match database with
          | None => empty_db
          | Some db => if drop_database_flag then empty_db else db
          end)
  end.

(** *** Predicates on stored states *)

(** The primary keys of the four tables. *)
Definition keys_unique (db : DB) : Prop :=
  NoDup (cs_iri <$> concept_schemes db) ∧
  NoDup (c_iri <$> concepts db) ∧
  NoDup (in_scheme db) ∧
  NoDup (endpoints <$> semantic_relations db).

(** Every row of [db] is a row of [db']. *)
Definition extends (db db' : DB) : Prop :=
  concept_schemes db ⊆ concept_schemes db' ∧
  concepts db ⊆ concepts db' ∧
  in_scheme db ⊆ in_scheme db' ∧
  semantic_relations db ⊆ semantic_relations db'.

Definition concept_scheme_stored (db : DB) (s : ConceptScheme.t) : Prop :=
  ∃ row, concept_scheme_row s = Ok row ∧ row ∈ concept_schemes db.

Definition in_scheme_stored (db : DB) (link : option string * option string) : Prop :=
  ∃ row, in_scheme_row link = Ok row ∧ row ∈ in_scheme db.

Definition concept_stored (db : DB) (c : Concept.t) : Prop :=
  ∃ row, concept_row c = Ok row ∧ row ∈ concepts db.

Definition semantic_relation_stored (db : DB) (r : SemanticRelation.t) : Prop :=
  ∃ row, semantic_relation_row r = Ok row ∧ row ∈ semantic_relations db.

(** Every record of a batch has its row in [db], and every membership of
    a concept its row in [in_scheme]. *)
Definition batch_stored (db : DB) (concept_schemes : list ConceptScheme.t)
    (concepts : list Concept.t) (semantic_relations : list SemanticRelation.t)
  : Prop :=
  (∀ s, s ∈ concept_schemes → concept_scheme_stored db s) ∧
  (∀ c, c ∈ concepts →
        concept_stored db c ∧
        ∀ s, s ∈ Concept.concept_schemes c →
             concept_scheme_stored db s ∧
             in_scheme_stored db (ConceptScheme.iri s, Concept.iri c)) ∧
  (∀ r, r ∈ semantic_relations → semantic_relation_stored db r).

(** The foreign keys: every row of [in_scheme] and of
    [semantic_relations] refers to stored rows. *)
Definition references_valid (db : DB) : Prop :=
  (∀ row, row ∈ in_scheme db →
          scheme_iri row ∈ cs_iri <$> concept_schemes db ∧
          concept_iri row ∈ c_iri <$> concepts db) ∧
  (∀ row, row ∈ semantic_relations db →
          r_source_concept_iri row ∈ c_iri <$> concepts db ∧
          r_target_concept_iri row ∈ c_iri <$> concepts db).

(** What one successful INSERT does: it only adds rows, keeps the keys
    unique and stores its object. *)
Definition inserts {A} (insert : A → DB → result DB) (stored : DB → A → Prop) : Prop :=
  ∀ x db db', insert x db = Ok db' →
    extends db db' ∧ (keys_unique db → keys_unique db') ∧ stored db' x.

(** No state reached from [txn] by adding rows accepts [x]. *)
Definition doomed {A} (insert : A → DB → result DB) (txn : DB) (x : A) : Prop :=
  ∀ db, extends txn db → ∃ e, insert x db = Raise e.

End database.

(** ** pathlib

    A [PurePosixPath]: its root ("" for a relative path, otherwise "/" or
    "//") and the components that follow.  Parsing drops empty components
    and "." components and keeps ".." ones. *)

Module Path.

Record t := mk { root : string; parts : list string }.

#[global] Instance eq_dec : EqDecision t.
Proof. solve_decision. Defined.

(** The pieces of [s] between its slashes. *)
Fixpoint split (s : string) : list string :=
  match s with
  | EmptyString => [""]
  | String a s =>
      if bool_decide (String a "" = "/") then "" :: split s
      else match split s with
           | piece :: pieces => String a piece :: pieces
           | [] => [String a ""]
           end
  end.

(** The number of slashes [s] starts with. *)
Fixpoint leading_slashes (s : string) : nat :=
  match s with
  | String a s => if bool_decide (String a "" = "/") then S (leading_slashes s) else 0
  | EmptyString => 0
  end.

(** [PurePosixPath(s)] *)
Definition Path (s : string) : t :=
  {| root := match leading_slashes s with
             | 0 => ""
             | 2 => "//"
             | _ => "/"
             end;
     parts := filter (fun piece => piece ≠ "" ∧ piece ≠ ".") (split s) |}.

(** [self / key] *)
Definition truediv (self : t) (key : string) : t :=
  let other := Path key in
  if decide (root other = "")
  then {| root := root self; parts := parts self ++ parts other |}
  else other.

(** [sep.join(pieces)] *)
Fixpoint join (sep : string) (pieces : list string) : string :=
  match pieces with
  | [] => ""
  | [piece] => piece
  | piece :: pieces => piece ++ sep ++ join sep pieces
  end.

(** [str(self)] *)
Definition str (self : t) : string :=
  match root self, parts self with
  | "", [] => "."
  | root, parts => root ++ join "/" parts
  end.

End Path.

(** ** controllers.py *)

Module controllers.

(** What the controller gets from owlready2, the file system and the
    XML parser.  [load url reload files] is
    [get_ontology(url).load(reload=reload)], which reads a local copy
    under [onto_path] or downloads; [rdfxml ontology] is the text
    [ontology.save(format="rdfxml")] writes; [parse_xml content] is the
    root element [defusedxml] parses out of a file's content. *)
Class Externals := {
  Ontology : Type;
  load : string → bool → gmap string string → result Ontology;
  rdfxml : Ontology → result string;
  parse_xml : string → result Element
}.

Definition base_url : string := "http://publications.europa.eu/resource/distribution/".

(** [GlossaryController.datasets], in the order [items()] yields. *)
Definition datasets : list (string * string) :=
  [ ("ESTAT-CN2024.rdf",
     base_url ++ "combined-nomenclature-2024/20240425-0/rdf/skos_core/ESTAT-CN2024.rdf");
    ("ESTAT-LoW2015.rdf",
     base_url ++ "low2015/20240425-0/rdf/skos_core/ESTAT-LoW2015.rdf");
    ("ESTAT-NACE2.1.rdf",
     base_url ++ "nace2.1/20240425-0/rdf/skos_core/ESTAT-NACE2.1.rdf");
    ("ESTAT-ICST-COM.rdf",
     base_url ++ "icst-com/20240425-0/rdf/skos_core/ESTAT-ICST-COM.rdf");
    ("ESTAT-PRODCOM2023.rdf",
     base_url ++ "prodcom2023/20240425-0/rdf/skos_core/ESTAT-PRODCOM2023.rdf") ].

(** [str(self.data_dir / dataset_file)]: the name under which the file
    system knows [dataset_path]. *)
Definition path_join (data_dir : Path.t) (dataset_file : string) : string :=
  Path.str (Path.truediv data_dir dataset_file).

(** The three lists [parse_dataset] returns. *)
Record Parsed := {
  concept_schemes : list ConceptScheme.t;
  concepts : list Concept.t;
  semantic_relations : list SemanticRelation.t
}.

(** What the process environment, the database server and the file
    system hold.  [files] gives, for a name as the program hands it to the
    operating system, the content last written under that name. *)
Record World := {
  environ : gmap string string;
  database : option database.DB;
  files : gmap string string
}.

(** [{"dataset": dataset_file, "dataset_url": dataset_url}] *)
Definition saved_entry (dataset_file dataset_url : string) : gmap string string :=
  <["dataset_url" := dataset_url]> (<["dataset" := dataset_file]> ∅).

(** [{"dataset": dataset_file, "dataset_url": dataset_url, "error": str(error)}] *)
Definition failed_entry (dataset_file dataset_url : string) (error : Exception)
  : gmap string string :=
  <["error" := str error]>
  (<["dataset_url" := dataset_url]> (<["dataset" := dataset_file]> ∅)).

(** The variables of the loop of [init_datasets]. *)
Record Loop := {
  saved_datasets : list (gmap string string);
  failed_datasets : list (gmap string string);
  engine : database.DB;
  data_dir_files : gmap string string
}.


Section GlossaryController.

Context `{Externals}.

(** [data_dir] is [self.data_dir]. *)
Variable data_dir : Path.t.

(** [GlossaryController.__init__]: the engine is set up without the drop
    flag.  [self.data_dir] is the section variable; appending it to
    [onto_path] is what lets [load] read the files of the data directory. *)
Definition __init__ (world : World) : result World :=
  ready ← database.init_engine None false (environ world) (database world);
  mret {| environ := environ world;
          database := Some ready;
          files := files world |}.

(** [files] is what the file system holds, by name; [dataset_path] is the
    name of the file to parse, [str(dataset_path)]. *)
Definition parse_dataset (files : gmap string string) (dataset_path : string)
  : result Parsed :=
  content ← match files !! dataset_path with
            | Some content => Ok content
            | None => Raise (mkException OSError
                               ("Error reading file: " ++ dataset_path))
            end;
  root ← parse_xml content;
  concept_scheme_elements ← findall root "core" "ConceptScheme";
  concept_elements ← findall root "core" "Concept";
  concept_schemes ← mapM ConceptScheme.from_xml_element concept_scheme_elements;
  concepts ← mapM (fun concept_element =>
                     Concept.call_from_xml_element concept_element None)
                  concept_elements;
  semantic_relations ←
    foldl (fun acc concept_element =>
             semantic_relations ← acc;
             relations ← SemanticRelation.from_xml_element concept_element;
             mret ((semantic_relations ++ relations)%list))
          (Ok ([] : list SemanticRelation.t)) concept_elements;
  mret {| concept_schemes := concept_schemes;
          concepts := concepts;
          semantic_relations := semantic_relations |}.

(** The body of the [try] for one dataset: the state it leaves (a file
    written before a later step raises stays written) and whether it
    ran to its end. *)
Definition try_dataset (reload : bool) (engine : database.DB)
    (files : gmap string string) (dataset_file dataset_url : string)
  : database.DB * gmap string string * result unit :=
  let dataset_path := path_join data_dir dataset_file in
  match load dataset_url reload files with
  | Raise error => (engine, files, Raise error)
  | Ok ontology =>
      match rdfxml ontology with
      | Raise error => (engine, files, Raise error)
      | Ok content =>
          let files := <[dataset_path := content]> files in
          match parse_dataset files dataset_path with
          | Raise error => (engine, files, Raise error)
          | Ok parsed =>
              let '(engine, saved) :=
                database.save_dataset engine (concept_schemes parsed)
                  (concepts parsed) (semantic_relations parsed) in
              (engine, files, saved)
          end
      end
  end.

(** One iteration of the [for] loop, [try] and [except] included. *)
Definition init_dataset (reload : bool) (st : Loop) (dataset : string * string)
  : Loop :=
  let '(dataset_file, dataset_url) := dataset in
  let '(engine, files, outcome) :=
    try_dataset reload (engine st) (data_dir_files st) dataset_file dataset_url in
  match outcome with
  | Ok _ =>
      {| saved_datasets :=
           saved_datasets st ++ [saved_entry dataset_file dataset_url];
         failed_datasets := failed_datasets st;
         engine := engine;
         data_dir_files := files |}
  | Raise error =>
      {| saved_datasets := saved_datasets st;
         failed_datasets :=
           failed_datasets st ++ [failed_entry dataset_file dataset_url error];
         engine := engine;
         data_dir_files := files |}
  end.

(** The loop over [datasets], from the state [init_engine] leaves. *)
Definition init_datasets_loop (reload : bool) (datasets : list (string * string))
    (st : Loop) : Loop :=
  foldl (init_dataset reload) st datasets.

(** [init_datasets] over a dataset collection: the two lists, and the
    world the run leaves behind. *)
Definition init_datasets_of (datasets : list (string * string)) (reload : bool)
    (world : World)
  : result (list (gmap string string) * list (gmap string string) * World) :=
  initial ← database.init_engine None true (environ world) (database world);
  let st := init_datasets_loop reload datasets
              {| saved_datasets := []; failed_datasets := [];
                 engine := initial; data_dir_files := files world |} in
  mret (saved_datasets st, failed_datasets st,
        {| environ := environ world;
           database := Some (engine st);
           files := data_dir_files st |}).

Definition init_datasets (reload : bool) (world : World) :=
  init_datasets_of datasets reload world.

Definition get_concept_schemes (engine : database.DB) (lang : string) : list Dict :=
  (fun concept_scheme => ConceptScheme.to_dict concept_scheme lang)
    <$> database.get_concept_schemes engine.

Definition get_concepts (engine : database.DB) (concept_scheme_iri lang : string)
  : result (list Dict) :=
  found ← database.get_concepts engine concept_scheme_iri;
  mret ((fun concept : Concept.t => Concept.to_dict concept lang) <$> (found : list Concept.t)).

End GlossaryController.

End controllers.

(** ** Sample data

    A small SKOS document in the shape owlready2 writes, and records
    parsed from it, for the worked examples below. *)

Module sample.

Definition core : string := "http://www.w3.org/2004/02/skos/core#".
Definition rdf : string := "http://www.w3.org/1999/02/22-rdf-syntax-ns#".
Definition dc : string := "http://purl.org/dc/elements/1.1/".

Definition ns : gmap string string :=
  <["x_1.1" := dc]> (<["rdf" := rdf]> (<["core" := core]> ∅)).

Definition leaf (tag : string) (attrib : gmap string string)
    (text : option string) : Element :=
  mkElement tag attrib text ns [].

Definition label (local lang text : string) : Element :=
  leaf (clark core local) (<[Base.xml_namespace ++ "lang" := lang]> ∅) (Some text).

Definition reference (local resource : string) : Element :=
  leaf (clark core local) (<[clark rdf "resource" := resource]> ∅) None.

Definition scheme_element : Element :=
  mkElement (clark core "ConceptScheme") (<[clark rdf "about" := "urn:scheme"]> ∅)
    None ns
    [label "prefLabel" "en" "Waste list"; label "prefLabel" "fr" "Liste des dechets"].

Definition other_scheme_element : Element :=
  mkElement (clark core "ConceptScheme") (<[clark rdf "about" := "urn:other"]> ∅)
    None ns [label "prefLabel" "en" "Other list"].

Definition concept_element : Element :=
  mkElement (clark core "Concept") (<[clark rdf "about" := "urn:a"]> ∅) None ns
    [label "prefLabel" "en" "Plastics";
     reference "related" "urn:r";
     reference "inScheme" "urn:scheme";
     reference "broader" "urn:b"].

Definition root : Element :=
  mkElement (clark rdf "RDF") ∅ None ns
    [scheme_element; other_scheme_element; concept_element].

Definition scheme : ConceptScheme.t :=
  {| ConceptScheme.iri := Some "urn:scheme";
     ConceptScheme.notation := Some "";
     ConceptScheme.scopeNote := Some "";
     ConceptScheme.prefLabels :=
       <[Some "fr" := Some "Liste des dechets"]>
       (<[Some "en" := Some "Waste list"]> ∅) |}.

(** [scheme] with another French label. *)
Definition scheme_relabelled : ConceptScheme.t :=
  {| ConceptScheme.iri := Some "urn:scheme";
     ConceptScheme.notation := Some "";
     ConceptScheme.scopeNote := Some "";
     ConceptScheme.prefLabels :=
       <[Some "fr" := Some "Catalogue des dechets"]>
       (<[Some "en" := Some "Waste list"]> ∅) |}.

Definition other_scheme : ConceptScheme.t :=
  {| ConceptScheme.iri := Some "urn:other";
     ConceptScheme.notation := Some "";
     ConceptScheme.scopeNote := Some "";
     ConceptScheme.prefLabels := <[Some "en" := Some "Other list"]> ∅ |}.

Definition concept : Concept.t :=
  {| Concept.iri := Some "urn:a";
     Concept.identifier := Some "";
     Concept.notation := Some "";
     Concept.prefLabels := <[Some "en" := Some "Plastics"]> ∅;
     Concept.altLabels := ∅;
     Concept.scopeNotes := ∅;
     Concept.concept_schemes := [scheme] |}.

Definition new_scheme : ConceptScheme.t :=
  {| ConceptScheme.iri := Some "urn:new";
     ConceptScheme.notation := Some "";
     ConceptScheme.scopeNote := Some "";
     ConceptScheme.prefLabels := ∅ |}.

Definition other_concept : Concept.t :=
  {| Concept.iri := Some "urn:b";
     Concept.identifier := Some "";
     Concept.notation := Some "";
     Concept.prefLabels := <[Some "en" := Some "Materials"]> ∅;
     Concept.altLabels := ∅;
     Concept.scopeNotes := ∅;
     Concept.concept_schemes := [] |}.

(** "urn:a" has "urn:b" as a broader concept. *)
Definition relation : SemanticRelation.t :=
  {| SemanticRelation.type := BROADER;
     SemanticRelation.source_concept_iri := Some "urn:a";
     SemanticRelation.target_concept_iri := Some "urn:b" |}.

(** A scheme element without [rdf:about], whose English label has no
    text. *)
Definition untitled_scheme_element : Element :=
  mkElement (clark core "ConceptScheme") ∅ None ns
    [leaf (clark core "prefLabel") (<[Base.xml_namespace ++ "lang" := "en"]> ∅) None].

(** A concept with an English label and a label without a language
    tag. *)
Definition untagged_concept : Concept.t :=
  {| Concept.iri := Some "urn:u";
     Concept.identifier := Some "";
     Concept.notation := Some "";
     Concept.prefLabels := <[None := Some "Sans langue"]> (<[Some "en" := Some "Tagged"]> ∅);
     Concept.altLabels := ∅;
     Concept.scopeNotes := ∅;
     Concept.concept_schemes := [] |}.

(** The same document without its concept. *)
Definition schemes_root : Element :=
  mkElement (clark rdf "RDF") ∅ None ns [scheme_element; other_scheme_element].

(** A world in which the first configured dataset is [schemes_root],
    the second is [root] and the others cannot be downloaded. *)
Definition externals : controllers.Externals :=
  {| controllers.Ontology := string;
     controllers.load := fun url reload files =>
       if bool_decide (Some url = controllers.datasets.*2 !! 0%nat)
       then Ok "schemes"
       else if bool_decide (Some url = controllers.datasets.*2 !! 1%nat)
       then Ok "document"
       else Raise (mkException OtherError "HTTP Error 404: Not Found");
     controllers.rdfxml := fun ontology => Ok ontology;
     controllers.parse_xml := fun content =>
       if bool_decide (content = "schemes") then Ok schemes_root
       else if bool_decide (content = "document") then Ok root
       else Raise (mkException SyntaxError "Document is empty") |}.

(** A world in which nothing can be downloaded. *)
Definition offline : controllers.Externals :=
  {| controllers.Ontology := string;
     controllers.load := fun url reload files =>
       Raise (mkException OtherError "HTTP Error 404: Not Found");
     controllers.rdfxml := fun ontology => Ok ontology;
     controllers.parse_xml := fun content =>
       Raise (mkException SyntaxError "Document is empty") |}.

Definition files : gmap string string := <["data/sample.rdf" := "document"]> ∅.

Definition world : controllers.World :=
  {| controllers.environ := <["DATABASE_URL" := "postgresql://localhost/glossary"]> ∅;
     controllers.database := None;
     controllers.files := ∅ |}.

(** The tables after [scheme], [other_scheme] and [concept] are saved
    in an empty database. *)
Definition db : database.DB :=
  (database.save_dataset database.empty_db [scheme; other_scheme] [concept] []).1.

End sample.

(** * Properties *)

(** ** Localised lookup *)

Lemma dict_get_lookup {K V D} `{Lookup K V D} (d : D) k dflt :
  Base.dict_get d k dflt = default dflt (d !! k).
Proof. unfold Base.dict_get. by destruct (d !! k). Qed.

(** Assignment and lookup on a label mapping. *)
Lemma LangDict_lookup_empty (key : option string) : (∅ : LangDict) !! key = None.
Proof. reflexivity. Qed.

Lemma LangDict_lookup_insert (d : LangDict) (key key' : option string)
    (v : option string) :
  <[key := v]> d !! key' = if decide (key = key') then Some v else d !! key'.
Proof.
  destruct d as [l]. unfold lookup, insert, LangDict_lookup, LangDict_insert. simpl.
  set (f := fun item : option string * option string =>
              if decide (item.1 = key) then (key, v) else item).
  destruct (decide (key ∈ l.*1)) as [Hin|Hnotin]; simpl.
  - assert (filter (fun item => item.1 = key') (f <$> l)
            = f <$> filter (fun item => item.1 = key') l) as ->.
    { clear Hin. induction l as [|item l IH]; [done|].
      assert ((f item).1 = item.1) as Hkey
        by (unfold f; by destruct (decide (item.1 = key))).
      rewrite fmap_cons, !filter_cons, Hkey, IH.
      by destruct (decide (item.1 = key')). }
    rewrite fmap_last, <-option_fmap_compose.
    destruct (decide (key = key')) as [<-|Hne].
    + apply list_elem_of_fmap in Hin as (item & -> & Hitem).
      assert (item ∈ filter (fun item' => item'.1 = item.1) l) as Hfound
        by by apply list_elem_of_filter.
      destruct (last (filter _ l)) as [item'|] eqn:Hlast.
      * simpl. apply last_Some_elem_of, list_elem_of_filter in Hlast as [Hlast _].
        unfold f. by rewrite decide_True.
      * apply last_None in Hlast. rewrite Hlast in Hfound.
        by apply elem_of_nil in Hfound.
    + destruct (last (filter _ l)) as [item'|] eqn:Hlast; [|done].
      simpl. apply last_Some_elem_of, list_elem_of_filter in Hlast as [Hlast _].
      unfold f. rewrite decide_False; [done|congruence].
  - rewrite filter_app, filter_cons, filter_nil. simpl.
    destruct (decide (key = key')) as [<-|Hne].
    + by rewrite last_snoc.
    + by rewrite app_nil_r.
Qed.

Lemma get_in_language_typed (attribute : LangDict) (lang : string) :
  lang_dict_typed attribute → is_Some (Base.get_in_language attribute lang).
Proof.
  intros Hty. unfold Base.get_in_language. rewrite !dict_get_lookup.
  destruct (attribute !! Some lang) as [v|] eqn:Hl; simpl.
  - by destruct (Hty _ _ Hl).
  - destruct (attribute !! Some "en") as [v|] eqn:He; simpl; [|done].
    by destruct (Hty _ _ He).
Qed.

(** C3. [get_in_language] is total and returns the entry of the requested
    language when there is one, otherwise the entry of "en" when there is
    one, otherwise the empty string; on a mapping of strings the result is
    a string. *)
Theorem get_in_language_fallback (attribute : LangDict) (lang : string) :
  (∀ v, attribute !! Some lang = Some v →
        Base.get_in_language attribute lang = v) ∧
  (attribute !! Some lang = None →
     ∀ v, attribute !! Some "en" = Some v →
          Base.get_in_language attribute lang = v) ∧
  (attribute !! Some lang = None → attribute !! Some "en" = None →
     Base.get_in_language attribute lang = Some "") ∧
  (lang_dict_typed attribute → is_Some (Base.get_in_language attribute lang)).
Proof.
  split_and!; [| | |apply get_in_language_typed];
    unfold Base.get_in_language; rewrite !dict_get_lookup.
  - by intros v ->.
  - by intros -> v ->.
  - by intros -> ->.
Qed.

Lemma get_in_language_fallback_witness :
  Base.get_in_language (<[Some "en" := Some "waste"]> ∅) "fr" = Some "waste".
Proof.
  apply (proj1 (proj2 (get_in_language_fallback
                         (<[Some "en" := Some "waste"]> ∅) "fr"))).
  - reflexivity.
  - reflexivity.
Defined.

(** ** Serialisation to dictionaries *)

Lemma string_valued_insert (d : Dict) k v :
  is_Some v → string_valued d → string_valued (<[k := v]> d).
Proof.
  intros Hv Hd k' v'. rewrite lookup_insert.
  case_decide; [naive_solver | apply Hd].
Qed.

Lemma string_valued_empty : string_valued ∅.
Proof. intros k v. by rewrite lookup_empty. Qed.

Lemma ConceptScheme_to_dict_spec (s : ConceptScheme.t) (lang : string) :
  let d := ConceptScheme.to_dict s lang in
  dom d = ({["iri"; "notation"; "scopeNote"; "prefLabel"]} : gset string) ∧
  d !! "iri" = Some (ConceptScheme.iri s) ∧
  d !! "notation" = Some (ConceptScheme.notation s) ∧
  d !! "scopeNote" = Some (ConceptScheme.scopeNote s) ∧
  d !! "prefLabel" = Some (Base.get_in_language (ConceptScheme.prefLabels s) lang).
Proof.
  unfold ConceptScheme.to_dict. split_and!; [|done..].
  rewrite !dom_insert_L, dom_empty_L. set_solver.
Qed.

Lemma Concept_to_dict_spec (c : Concept.t) (lang : string) :
  let d := Concept.to_dict c lang in
  dom d = ({["iri"; "identifier"; "notation"; "prefLabel"; "altLabel"; "scopeNote"]}
           : gset string) ∧
  d !! "iri" = Some (Concept.iri c) ∧
  d !! "identifier" = Some (Concept.identifier c) ∧
  d !! "notation" = Some (Concept.notation c) ∧
  d !! "prefLabel" = Some (Base.get_in_language (Concept.prefLabels c) lang) ∧
  d !! "altLabel" = Some (Base.get_in_language (Concept.altLabels c) lang) ∧
  d !! "scopeNote" = Some (Base.get_in_language (Concept.scopeNotes c) lang).
Proof.
  unfold Concept.to_dict. split_and!; [|done..].
  rewrite !dom_insert_L, dom_empty_L. set_solver.
Qed.

Lemma SemanticRelation_to_dict_spec (r : SemanticRelation.t) :
  let d := SemanticRelation.to_dict r in
  dom d = ({["type"; "source_concept_iri"; "target_concept_iri"]} : gset string) ∧
  d !! "type" = Some (Some (value (SemanticRelation.type r))) ∧
  d !! "source_concept_iri" = Some (SemanticRelation.source_concept_iri r) ∧
  d !! "target_concept_iri" = Some (SemanticRelation.target_concept_iri r).
Proof.
  unfold SemanticRelation.to_dict. split_and!; [|done..].
  rewrite !dom_insert_L, dom_empty_L. set_solver.
Qed.

Lemma to_dict_string_valued :
  (∀ s lang, ConceptScheme_typed s → string_valued (ConceptScheme.to_dict s lang)) ∧
  (∀ c lang, Concept_typed c → string_valued (Concept.to_dict c lang)) ∧
  (∀ r, SemanticRelation_typed r → string_valued (SemanticRelation.to_dict r)).
Proof.
  split_and!.
  - intros s lang (? & ? & ? & ?). unfold ConceptScheme.to_dict.
    repeat apply string_valued_insert;
      auto using string_valued_empty, get_in_language_typed.
  - intros c lang (? & ? & ? & ? & ? & ?). unfold Concept.to_dict.
    repeat apply string_valued_insert;
      auto using string_valued_empty, get_in_language_typed.
  - intros r (? & ?). unfold SemanticRelation.to_dict.
    repeat apply string_valued_insert; auto using string_valued_empty.
Qed.

Lemma string_valued_lookup (d : Dict) (k : string) (v : option string) :
  string_valued d → d !! k = Some v → is_Some v.
Proof. intros Hd. apply Hd. Qed.

(** C9. [to_dict] exposes exactly the listed keys, and every value is the
    record's own field (a label mapping localised to the requested
    language).  The values are strings exactly when those fields are: on a
    record that holds what its annotations declare they all are, but
    nothing makes a record hold it. *)
Theorem to_dict_exposes_fields :
  (∀ (s : ConceptScheme.t) (lang : string),
     let d := ConceptScheme.to_dict s lang in
     dom d = ({["iri"; "notation"; "scopeNote"; "prefLabel"]} : gset string) ∧
     d !! "iri" = Some (ConceptScheme.iri s) ∧
     d !! "notation" = Some (ConceptScheme.notation s) ∧
     d !! "scopeNote" = Some (ConceptScheme.scopeNote s) ∧
     d !! "prefLabel" = Some (Base.get_in_language (ConceptScheme.prefLabels s) lang) ∧
     (ConceptScheme_typed s → string_valued d) ∧
     (string_valued d ↔
      is_Some (ConceptScheme.iri s) ∧ is_Some (ConceptScheme.notation s) ∧
      is_Some (ConceptScheme.scopeNote s) ∧
      is_Some (Base.get_in_language (ConceptScheme.prefLabels s) lang))) ∧
  (∀ (c : Concept.t) (lang : string),
     let d := Concept.to_dict c lang in
     dom d = ({["iri"; "identifier"; "notation"; "prefLabel"; "altLabel"; "scopeNote"]}
              : gset string) ∧
     d !! "iri" = Some (Concept.iri c) ∧
     d !! "identifier" = Some (Concept.identifier c) ∧
     d !! "notation" = Some (Concept.notation c) ∧
     d !! "prefLabel" = Some (Base.get_in_language (Concept.prefLabels c) lang) ∧
     d !! "altLabel" = Some (Base.get_in_language (Concept.altLabels c) lang) ∧
     d !! "scopeNote" = Some (Base.get_in_language (Concept.scopeNotes c) lang) ∧
     (Concept_typed c → string_valued d) ∧
     (string_valued d ↔
      is_Some (Concept.iri c) ∧ is_Some (Concept.identifier c) ∧
      is_Some (Concept.notation c) ∧
      is_Some (Base.get_in_language (Concept.prefLabels c) lang) ∧
      is_Some (Base.get_in_language (Concept.altLabels c) lang) ∧
      is_Some (Base.get_in_language (Concept.scopeNotes c) lang))) ∧
  (∀ r : SemanticRelation.t,
     let d := SemanticRelation.to_dict r in
     dom d = ({["type"; "source_concept_iri"; "target_concept_iri"]} : gset string) ∧
     d !! "type" = Some (Some (value (SemanticRelation.type r))) ∧
     d !! "source_concept_iri" = Some (SemanticRelation.source_concept_iri r) ∧
     d !! "target_concept_iri" = Some (SemanticRelation.target_concept_iri r) ∧
     (SemanticRelation_typed r → string_valued d) ∧
     (string_valued d ↔
      is_Some (SemanticRelation.source_concept_iri r) ∧
      is_Some (SemanticRelation.target_concept_iri r))).
Proof.
  destruct to_dict_string_valued as (Hs & Hc & Hr).
  split_and!.
  - intros s lang d. destruct (ConceptScheme_to_dict_spec s lang) as (? & ? & ? & ? & ?).
    subst d; split_and!; auto. split.
    + intros Hd. split_and!; by eapply string_valued_lookup.
    + intros (? & ? & ? & ?). unfold ConceptScheme.to_dict.
      repeat apply string_valued_insert; auto using string_valued_empty.
  - intros c lang d.
    destruct (Concept_to_dict_spec c lang) as (? & ? & ? & ? & ? & ? & ?).
    subst d; split_and!; auto. split.
    + intros Hd. split_and!; by eapply string_valued_lookup.
    + intros (? & ? & ? & ? & ? & ?). unfold Concept.to_dict.
      repeat apply string_valued_insert; auto using string_valued_empty.
  - intros r d. destruct (SemanticRelation_to_dict_spec r) as (? & ? & ? & ?).
    subst d; split_and!; auto. split.
    + intros Hd. split; by eapply string_valued_lookup.
    + intros (? & ?). unfold SemanticRelation.to_dict.
      repeat apply string_valued_insert; auto using string_valued_empty.
Qed.

Lemma to_dict_exposes_fields_witness :
  string_valued (ConceptScheme.to_dict sample.scheme "fr").
Proof.
  destruct (proj1 to_dict_exposes_fields sample.scheme "fr")
    as (_ & _ & _ & _ & _ & Htyped & _).
  apply Htyped. unfold ConceptScheme_typed. split_and!; [by eexists..|].
  intros k v.
  change (ConceptScheme.prefLabels sample.scheme)
    with (<[Some "fr" := Some "Liste des dechets"]>
          (<[Some "en" := Some "Waste list"]> (∅ : LangDict))).
  rewrite !LangDict_lookup_insert, LangDict_lookup_empty.
  repeat case_decide; intros; simplify_eq; by split; eexists.
Defined.

(** The parser itself builds records whose dictionaries hold [None]: a
    scheme element without [rdf:about] whose label has no text gives a
    scheme with no IRI and no English label. *)
Lemma to_dict_exposes_fields_counterexample :
  ∃ s,
    ConceptScheme.from_xml_element sample.untitled_scheme_element = Ok s ∧
    ConceptScheme.to_dict s "en" !! "iri" = Some None ∧
    ConceptScheme.to_dict s "en" !! "prefLabel" = Some None ∧
    ¬ string_valued (ConceptScheme.to_dict s "en").
Proof.
  eexists. split; [reflexivity|]. split_and!; [reflexivity..|].
  intros Hd. by destruct (Hd "iri" None eq_refl).
Qed.

(** ** Equality of records *)

(** C10. [__eq__] compares the English serialisations and nothing else:
    two schemes, or two concepts, with the same scalar fields and the same
    English-localised labels are equal whatever their mappings hold for
    other languages. *)
Theorem eq_is_default_to_dict_equality :
  (∀ self other : Record_,
     __eq__ self other = true ↔ to_dict_default self = to_dict_default other) ∧
  (∀ s1 s2 : ConceptScheme.t,
     ConceptScheme.iri s1 = ConceptScheme.iri s2 →
     ConceptScheme.notation s1 = ConceptScheme.notation s2 →
     ConceptScheme.scopeNote s1 = ConceptScheme.scopeNote s2 →
     Base.get_in_language (ConceptScheme.prefLabels s1) "en"
       = Base.get_in_language (ConceptScheme.prefLabels s2) "en" →
     __eq__ (RScheme s1) (RScheme s2) = true) ∧
  (∀ c1 c2 : Concept.t,
     Concept.iri c1 = Concept.iri c2 →
     Concept.identifier c1 = Concept.identifier c2 →
     Concept.notation c1 = Concept.notation c2 →
     Base.get_in_language (Concept.prefLabels c1) "en"
       = Base.get_in_language (Concept.prefLabels c2) "en" →
     Base.get_in_language (Concept.altLabels c1) "en"
       = Base.get_in_language (Concept.altLabels c2) "en" →
     Base.get_in_language (Concept.scopeNotes c1) "en"
       = Base.get_in_language (Concept.scopeNotes c2) "en" →
     __eq__ (RConcept c1) (RConcept c2) = true).
Proof.
  split_and!.
  - intros self other. unfold __eq__. apply bool_decide_eq_true.
  - intros s1 s2 Hi Hn Hs Hp. unfold __eq__. apply bool_decide_eq_true. simpl.
    unfold ConceptScheme.to_dict. by rewrite Hi, Hn, Hs, Hp.
  - intros c1 c2 Hi Hd Hn Hp Ha Hs. unfold __eq__. apply bool_decide_eq_true. simpl.
    unfold Concept.to_dict. by rewrite Hi, Hd, Hn, Hp, Ha, Hs.
Qed.

Lemma eq_is_default_to_dict_equality_witness :
  ConceptScheme.prefLabels sample.scheme !! Some "fr"
    ≠ ConceptScheme.prefLabels sample.scheme_relabelled !! Some "fr" ∧
  __eq__ (RScheme sample.scheme) (RScheme sample.scheme_relabelled) = true.
Proof.
  split.
  - vm_compute. discriminate.
  - apply (proj1 (proj2 eq_is_default_to_dict_equality)); reflexivity.
Defined.

(** ** Parsing relations *)

Lemma mapM_Ok {A B} (f : A → result B) (g : A → B) (l : list A) :
  (∀ x, x ∈ l → f x = Ok (g x)) → mapM f l = Ok (g <$> l).
Proof.
  induction l as [|x l IH]; intros Hf; [done|].
  simpl. rewrite (Hf x) by left. simpl.
  rewrite IH by (intros; apply Hf; by right). done.
Qed.

Lemma clark_inj uri local1 local2 : clark uri local1 = clark uri local2 → local1 = local2.
Proof.
  unfold clark. intros Heq.
  by do 3 apply String.app_inj in Heq.
Qed.

Lemma findall_Ok element prefix uri local :
  nsmap element !! prefix = Some uri →
  findall element prefix local = Ok (sub_elements element uri local).
Proof. intros Hns. unfold findall. by rewrite Hns. Qed.

Lemma nsmap_getitem_Ok element prefix uri :
  nsmap element !! prefix = Some uri → nsmap_getitem element prefix = Ok uri.
Proof. intros Hns. unfold nsmap_getitem. by rewrite Hns. Qed.

Lemma SemanticRelation_from_xml_element_eq element core rdf :
  nsmap element !! "core" = Some core →
  nsmap element !! "rdf" = Some rdf →
  SemanticRelation.from_xml_element element =
  Ok (relation_type ← SemanticRelationType_members;
      relation_record element rdf relation_type
        <$> sub_elements element core (value relation_type)).
Proof.
  intros Hcore Hrdf. unfold SemanticRelation.from_xml_element.
  rewrite (mapM_Ok _ (fun relation_type =>
     relation_record element rdf relation_type
       <$> sub_elements element core (value relation_type))); [done|].
  intros relation_type _. rewrite (findall_Ok _ _ core) by done. simpl.
  apply mapM_Ok. intros relation _. by rewrite (nsmap_getitem_Ok _ _ rdf).
Qed.

Lemma relation_children_count core
    (f : SemanticRelationType → Element → SemanticRelation.t) (l : list Element) :
  length (relation_type ← SemanticRelationType_members;
          f relation_type
            <$> filter (fun child => tag child = clark core (value relation_type)) l)
  = length (filter (fun child => tag child ∈ relation_tags core) l).
Proof.
  unfold SemanticRelationType_members, relation_tags. simpl.
  rewrite !length_app, !length_fmap. simpl.
  induction l as [|child l IH]; [done|].
  rewrite !filter_cons.
  assert (Hin : tag child ∈ [clark core "broader"; clark core "narrower";
                             clark core "related"; clark core "broaderTransitive";
                             clark core "narrowerTransitive"] ↔
     (tag child = clark core "broader" ∨ tag child = clark core "narrower" ∨
      tag child = clark core "related" ∨ tag child = clark core "broaderTransitive" ∨
      tag child = clark core "narrowerTransitive")).
  { rewrite !elem_of_cons, elem_of_nil. tauto. }
  repeat case_decide; simpl; try lia;
    try (exfalso; match goal with
         | H1 : tag child = clark core _, H2 : tag child = clark core _ |- _ =>
             rewrite H1 in H2; apply clark_inj in H2; discriminate
         end); exfalso; tauto.
Qed.

(** C5. On an element whose prefix map has [core] and [rdf],
    [SemanticRelation.from_xml_element] returns one relation per
    sub-element carrying one of the five relation tags: its type is the
    tag's, its source the [rdf:about] of the element and its target the
    [rdf:resource] of the sub-element.  With one [broader] and one
    [related] sub-element the result is exactly those two relations. *)
Theorem from_xml_element_one_relation_per_sub_element
    (element : Element) (core rdf : string) :
  nsmap element !! "core" = Some core →
  nsmap element !! "rdf" = Some rdf →
  ∃ relations,
    SemanticRelation.from_xml_element element = Ok relations ∧
    relations = (relation_type ← SemanticRelationType_members;
                 relation_record element rdf relation_type
                   <$> sub_elements element core (value relation_type)) ∧
    length relations
      = length (filter (fun child => tag child ∈ relation_tags core)
                       (children element)) ∧
    (∀ r, r ∈ relations ↔
          ∃ relation,
            relation ∈ children element ∧
            tag relation = clark core (value (SemanticRelation.type r)) ∧
            SemanticRelation.source_concept_iri r = get element (clark rdf "about") ∧
            SemanticRelation.target_concept_iri r = get relation (clark rdf "resource")) ∧
    (∀ broader related,
       sub_elements element core "broader" = [broader] →
       sub_elements element core "related" = [related] →
       sub_elements element core "narrower" = [] →
       sub_elements element core "broaderTransitive" = [] →
       sub_elements element core "narrowerTransitive" = [] →
       relations = [relation_record element rdf BROADER broader;
                    relation_record element rdf RELATED related]).
Proof.
  intros Hcore Hrdf. eexists. split; [by apply SemanticRelation_from_xml_element_eq|].
  split_and!.
  - done.
  - apply relation_children_count.
  - intros r. rewrite list_elem_of_bind. split.
    + intros (relation_type & Hr & _).
      apply list_elem_of_fmap in Hr as (relation & -> & Hrel).
      apply list_elem_of_filter in Hrel as [Htag Hrel]. by exists relation.
    + intros (relation & Hrel & Htag & Hsrc & Htgt).
      exists (SemanticRelation.type r). split.
      * apply list_elem_of_fmap. exists relation. split.
        -- destruct r; simpl in *; unfold relation_record; by f_equal.
        -- by apply list_elem_of_filter.
      * unfold SemanticRelationType_members.
        destruct (SemanticRelation.type r); set_solver.
  - intros broader related Hb Hr Hn Hbt Hnt.
    unfold SemanticRelationType_members. simpl.
    by rewrite Hb, Hr, Hn, Hbt, Hnt.
Qed.

Lemma from_xml_element_one_relation_per_sub_element_witness :
  SemanticRelation.from_xml_element sample.concept_element
  = Ok [ {| SemanticRelation.type := BROADER;
            SemanticRelation.source_concept_iri := Some "urn:a";
            SemanticRelation.target_concept_iri := Some "urn:b" |};
         {| SemanticRelation.type := RELATED;
            SemanticRelation.source_concept_iri := Some "urn:a";
            SemanticRelation.target_concept_iri := Some "urn:r" |} ].
Proof.
  destruct (from_xml_element_one_relation_per_sub_element
              sample.concept_element sample.core sample.rdf)
    as (relations & -> & _ & _ & _ & Htwo); [reflexivity..|].
  rewrite (Htwo (sample.reference "broader" "urn:b")
                (sample.reference "related" "urn:r")); reflexivity.
Defined.

(** ** Parsing concepts *)

Lemma get_sub_element_text_Ok element prefix uri local default_value :
  nsmap element !! prefix = Some uri →
  Base.get_sub_element_text element prefix local default_value
  = Ok (match head (sub_elements element uri local) with
        | Some e => text e
        | None => default_value
        end).
Proof.
  intros Hns. unfold Base.get_sub_element_text, find.
  by rewrite (findall_Ok _ _ uri).
Qed.

(** The membership references of a concept element. *)
Lemma Concept_from_xml_element_membership
    (element : Element) (core rdf dc : string)
    (concept_schemes : list ConceptScheme.t) :
  nsmap element !! "core" = Some core →
  nsmap element !! "rdf" = Some rdf →
  nsmap element !! "x_1.1" = Some dc →
  ∃ concept,
    Concept.from_xml_element element concept_schemes = Ok concept ∧
    ∀ s, s ∈ Concept.concept_schemes concept ↔
         s ∈ concept_schemes ∧
         ∃ reference,
           reference ∈ sub_elements element core "inScheme" ∧
           ConceptScheme.iri s = get reference (clark rdf "resource").
Proof.
  intros Hcore Hrdf Hdc. unfold Concept.from_xml_element.
  rewrite !(findall_Ok _ _ core) by done. simpl.
  rewrite (mapM_Ok _ (fun reference => get reference (clark rdf "resource")))
    by (intros; by rewrite (nsmap_getitem_Ok _ _ rdf)).
  simpl. rewrite (nsmap_getitem_Ok _ _ rdf) by done. simpl.
  rewrite (get_sub_element_text_Ok _ "x_1.1" dc), (get_sub_element_text_Ok _ "core" core)
    by done.
  simpl.
  eexists. split; [done|]. simpl.
  intros s. rewrite list_elem_of_filter, list_elem_of_fmap. split.
  - intros [(reference & ? & ?) ?]. eauto.
  - intros [? (reference & ? & ?)]. eauto.
Qed.

Lemma mapM_call_without_schemes (elements : list Element) :
  elements ≠ [] →
  mapM (fun concept_element => Concept.call_from_xml_element concept_element None)
       elements
  = Raise Concept.missing_concept_schemes.
Proof. by destruct elements. Qed.

(** [parse_dataset] cannot return a concept: the first concept element of
    a document stops it. *)
Lemma parse_dataset_raises_on_concepts `{controllers.Externals}
    (files : gmap string string) (dataset_path content : string)
    (root : Element) (core : string) (concept_schemes : list ConceptScheme.t) :
  files !! dataset_path = Some content →
  controllers.parse_xml content = Ok root →
  nsmap root !! "core" = Some core →
  mapM ConceptScheme.from_xml_element (sub_elements root core "ConceptScheme")
    = Ok concept_schemes →
  sub_elements root core "Concept" ≠ [] →
  controllers.parse_dataset files dataset_path
  = Raise Concept.missing_concept_schemes.
Proof.
  intros Hfile Hparse Hcore Hschemes Hconcepts. unfold controllers.parse_dataset.
  rewrite Hfile. simpl. rewrite Hparse. simpl.
  rewrite !(findall_Ok _ _ core) by done. simpl.
  rewrite Hschemes. simpl.
  by rewrite mapM_call_without_schemes.
Qed.

Lemma parse_dataset_concepts_nil `{controllers.Externals}
    (files : gmap string string) (dataset_path : string) (parsed : controllers.Parsed) :
  controllers.parse_dataset files dataset_path = Ok parsed →
  controllers.concepts parsed = [] ∧ controllers.semantic_relations parsed = [].
Proof.
  unfold controllers.parse_dataset.
  destruct (files !! dataset_path) as [content|]; simpl; [|done].
  destruct (controllers.parse_xml content) as [root|]; simpl; [|done].
  destruct (findall root "core" "ConceptScheme") as [scheme_elements|]; simpl; [|done].
  destruct (findall root "core" "Concept") as [concept_elements|]; simpl; [|done].
  destruct (mapM _ scheme_elements) as [schemes|]; simpl; [|done].
  destruct concept_elements as [|concept_element concept_elements]; simpl.
  - intros [= <-]. done.
  - done.
Qed.

(** C1. [parse_dataset] calls [Concept.from_xml_element] without the
    parsed schemes, so on a document with a concept it raises [TypeError]
    and returns no concept at all; called with the parsed schemes, as the
    signature asks, the same element yields the concept whose membership
    is exactly the scheme it references. *)
Theorem parse_dataset_omits_concept_schemes :
  @controllers.parse_dataset sample.externals sample.files "data/sample.rdf"
  = Raise Concept.missing_concept_schemes ∧
  Concept.from_xml_element sample.concept_element [sample.scheme; sample.other_scheme]
  = Ok sample.concept ∧
  Concept.concept_schemes sample.concept = [sample.scheme].
Proof. split_and!; reflexivity. Qed.

(** ** Label mappings in JSONB columns *)

Lemma jsonb_lookup (d : LangDict) (key : string) :
  database.jsonb d !! key
  = snd <$> last (filter (fun item => database.json_key item.1 = key) (items d)).
Proof.
  destruct d as [l]. unfold database.jsonb. simpl.
  induction l as [|item l IH] using rev_ind; [done|].
  rewrite foldl_app, filter_app, filter_cons, filter_nil. simpl.
  rewrite lookup_insert. destruct (decide (database.json_key item.1 = key)) as [Hk|Hk].
  - by rewrite last_snoc.
  - by rewrite app_nil_r.
Qed.

Lemma jsonb_lookup_tagged (d : LangDict) (key : string) :
  key ≠ "null" → database.jsonb d !! key = d !! Some key.
Proof.
  intros Hkey. rewrite jsonb_lookup. unfold lookup, LangDict_lookup.
  do 2 f_equal. apply list_filter_iff. intros [[k|] v]; simpl; [|done].
  split; congruence.
Qed.

Lemma filter_key_nil {A B} `{EqDecision A} (l : list (A * B)) (k : A) :
  k ∉ l.*1 → filter (fun item => item.1 = k) l = [].
Proof.
  induction l as [|item l IH]; [done|]. rewrite fmap_cons, not_elem_of_cons.
  intros [Hne Hnotin]. rewrite filter_cons, decide_False by done. auto.
Qed.

Lemma last_filter_key {A B} `{EqDecision A} (l : list (A * B)) (k : A) (v : B) :
  NoDup l.*1 → (k, v) ∈ l → last (filter (fun item => item.1 = k) l) = Some (k, v).
Proof.
  induction l as [|item l IH]; intros Hnodup Hin; [by apply elem_of_nil in Hin|].
  rewrite fmap_cons in Hnodup. apply NoDup_cons in Hnodup as [Hfirst Hnodup].
  rewrite filter_cons. apply elem_of_cons in Hin as [<-|Hin].
  - simpl. rewrite decide_True by done. by rewrite filter_key_nil.
  - rewrite decide_False.
    + by apply IH.
    + intros Hk. apply Hfirst. rewrite Hk. by apply (list_elem_of_fmap_2 fst _ (k, v)).
Qed.

Lemma LangDict_lookup_None (d : LangDict) (key : option string) :
  key ∉ (items d).*1 → d !! key = None.
Proof. intros Hkey. unfold lookup, LangDict_lookup. by rewrite filter_key_nil. Qed.

Lemma from_jsonb_lookup (object : database.JSONB) :
  database.from_jsonb object !! None = None ∧
  ∀ key, database.from_jsonb object !! Some key = object !! key.
Proof.
  unfold database.from_jsonb.
  set (sorted := merge_sort _ (map_to_list object)).
  assert (sorted ≡ₚ map_to_list object) as Hperm by apply merge_sort_Permutation.
  set (tagged := fun item : string * option string => (Some item.1, item.2)).
  assert ((tagged <$> sorted).*1 = Some <$> sorted.*1) as Hkeys.
  { rewrite <-!list_fmap_compose. by apply list_fmap_ext. }
  split.
  - apply LangDict_lookup_None. simpl. rewrite Hkeys.
    by intros (key & ? & _)%list_elem_of_fmap.
  - intros key. unfold lookup at 1, LangDict_lookup. simpl.
    destruct (object !! key) as [v|] eqn:Hkey.
    + rewrite (last_filter_key _ (Some key) v); [done| |].
      * rewrite Hkeys. apply (NoDup_fmap_2 Some). rewrite Hperm.
        apply NoDup_fst_map_to_list.
      * apply (list_elem_of_fmap_2 tagged _ (key, v)). rewrite Hperm.
        by apply elem_of_map_to_list.
    + rewrite filter_key_nil; [done|]. rewrite Hkeys.
      intros (key' & [= <-] & (item & -> & Hin)%list_elem_of_fmap)%list_elem_of_fmap.
      rewrite Hperm in Hin. destruct item as [k v].
      apply elem_of_map_to_list in Hin. simpl in Hkey. congruence.
Qed.

Lemma jsonb_lookup_null (d : LangDict) :
  d !! None = None → database.jsonb d !! "null" = d !! Some "null".
Proof.
  intros Hnone. rewrite jsonb_lookup. unfold lookup, LangDict_lookup in *.
  apply fmap_None, last_None in Hnone. do 2 f_equal.
  induction (items d) as [|[[k|] v] l IH]; [done| |].
  - rewrite filter_cons in Hnone. rewrite decide_False in Hnone by done.
    rewrite !filter_cons, IH by done. simpl.
    destruct (decide (k = "null")) as [->|Hk].
    + by rewrite decide_True.
    + rewrite decide_False; [done|congruence].
  - rewrite filter_cons, decide_True in Hnone; done.
Qed.

(** What a mapping answers after it has been stored and read back. *)
Lemma from_jsonb_jsonb (d : LangDict) (key : string) :
  key ≠ "null" ∨ d !! None = None →
  database.from_jsonb (database.jsonb d) !! Some key = d !! Some key.
Proof.
  intros Hkey. rewrite (proj2 (from_jsonb_lookup _)).
  destruct (decide (key = "null")) as [->|Hne].
  - destruct Hkey as [?|Hnone]; [done|]. by apply jsonb_lookup_null.
  - by apply jsonb_lookup_tagged.
Qed.

Lemma get_in_language_stored (d : LangDict) (lang : string) :
  lang ≠ "null" ∨ d !! None = None →
  Base.get_in_language (database.from_jsonb (database.jsonb d)) lang
  = Base.get_in_language d lang.
Proof.
  intros Hlang. unfold Base.get_in_language. rewrite !dict_get_lookup.
  rewrite (from_jsonb_jsonb d lang) by done.
  rewrite (from_jsonb_jsonb d "en") by (by left). done.
Qed.

(** ** Queries *)

(** C2. [get_concepts] filters on [Concept.scheme_iri], an attribute the
    class [Concept] does not have: whatever is stored and whatever IRI is
    asked for, the call raises [AttributeError] and returns no concept.
    The stored state [sample.db] has "urn:a" in "urn:scheme" through
    [in_scheme]; the query for that scheme raises all the same, and so
    does the controller's. *)
Theorem get_concepts_raises :
  (∀ (engine : database.DB) (concept_scheme_iri : string),
     database.get_concepts engine concept_scheme_iri
     = Raise (mkException AttributeError
                "type object 'Concept' has no attribute 'scheme_iri'")) ∧
  {| database.scheme_iri := "urn:scheme"; database.concept_iri := "urn:a" |}
    ∈ database.in_scheme sample.db ∧
  "urn:a" ∈ database.c_iri <$> database.concepts sample.db ∧
  controllers.get_concepts sample.db "urn:scheme" "en"
  = Raise (mkException AttributeError
             "type object 'Concept' has no attribute 'scheme_iri'").
Proof.
  split_and!.
  - intros engine concept_scheme_iri. unfold database.get_concepts.
    assert (database.Concept_getattr "scheme_iri"
            = Raise (mkException AttributeError
                       "type object 'Concept' has no attribute 'scheme_iri'")) as ->
      by reflexivity.
    done.
  - vm_compute. left.
  - vm_compute. left.
  - reflexivity.
Qed.

(** C6. [get_relations] returns the stored relations that have the given
    IRI as source or as target, and no others: a relation is in the result
    exactly when its type and endpoints are those of a stored row and one
    of its endpoints is the IRI; the result has one relation per such
    row. *)
Theorem get_relations_source_or_target
    (engine : database.DB) (concept_iri : string) :
  (∀ r : SemanticRelation.t,
     r ∈ database.get_relations engine concept_iri ↔
     (∃ row,
        row ∈ database.semantic_relations engine ∧
        SemanticRelation.type r = database.r_type row ∧
        SemanticRelation.source_concept_iri r
          = Some (database.r_source_concept_iri row) ∧
        SemanticRelation.target_concept_iri r
          = Some (database.r_target_concept_iri row)) ∧
     (SemanticRelation.source_concept_iri r = Some concept_iri ∨
      SemanticRelation.target_concept_iri r = Some concept_iri)) ∧
  length (database.get_relations engine concept_iri)
  = length (filter (fun row => database.r_source_concept_iri row = concept_iri
                               ∨ database.r_target_concept_iri row = concept_iri)
                   (database.semantic_relations engine)).
Proof.
  unfold database.get_relations. split; [|by rewrite length_fmap].
  intros r. rewrite list_elem_of_fmap. setoid_rewrite list_elem_of_filter. split.
  - intros (row & -> & Hmatch & Hrow). simpl. split; [by exists row|].
    destruct Hmatch as [<-|<-]; auto.
  - intros [(row & Hrow & Hty & Hsrc & Htgt) Hmatch]. exists row.
    destruct r as [ty src tgt]; simpl in *. subst. split; [done|].
    split; [|done]. destruct Hmatch as [[= ->]|[= ->]]; auto.
Qed.

Lemma filter_unique_key {A} (key : A → string) (k : string) (l : list A) :
  NoDup (key <$> l) →
  (filter (fun x => key x = k) l = [] ∧ ∀ x, x ∈ l → key x ≠ k) ∨
  (∃ x, filter (fun x => key x = k) l = [x] ∧ x ∈ l ∧ key x = k).
Proof.
  induction l as [|x l IH]; intros Hnd.
  - left. split; [done|]. intros x. by rewrite elem_of_nil.
  - rewrite fmap_cons in Hnd. apply NoDup_cons in Hnd as [Hx Hnd].
    rewrite filter_cons. destruct (IH Hnd) as [[Hnil Hnone]|(y & Hone & Hy & Hk)].
    + case_decide as Hkx.
      * right. exists x. rewrite Hnil. split_and!; [done|by left|done].
      * left. split; [done|]. intros z [->|Hz]%elem_of_cons; [done|by apply Hnone].
    + case_decide as Hkx.
      * exfalso. apply Hx. rewrite Hkx, <-Hk. by apply list_elem_of_fmap_2.
      * right. exists y. split_and!; [done|by right|done].
Qed.

Lemma where_eq_iri (concept_iri : string) (rows : list database.ConceptRow) :
  database.where_eq "iri" concept_iri rows
  = filter (fun row => database.c_iri row = concept_iri) rows.
Proof.
  unfold database.where_eq, database.Concept_column. simpl.
  induction rows as [|row rows IH]; [done|].
  rewrite !filter_cons, IH.
  repeat case_decide; naive_solver.
Qed.

(** C7. On a stored state whose primary keys are unique, [get_concept]
    never raises.  When a concept is stored under the IRI it returns that
    concept: an object with the IRI asked for and with the identifier,
    the notation and the labels of the stored row, which is the only row
    with that IRI.  When no concept is stored under the IRI it returns
    [None]; it returns a concept only when one is stored. *)
Theorem get_concept_one_or_none (engine : database.DB) (concept_iri : string) :
  database.keys_unique engine →
  (∃ found, database.get_concept engine concept_iri = Ok found) ∧
  (∀ row, row ∈ database.concepts engine → database.c_iri row = concept_iri →
     (∀ row', row' ∈ database.concepts engine →
              database.c_iri row' = concept_iri → row' = row) ∧
     ∃ concept,
       database.get_concept engine concept_iri = Ok (Some concept) ∧
       Concept.iri concept = Some concept_iri ∧
       Concept.identifier concept = Some (database.c_identifier row) ∧
       Concept.notation concept = Some (database.c_notation row) ∧
       ∀ lang,
         Concept.prefLabels concept !! Some lang = database.c_prefLabels row !! lang ∧
         Concept.altLabels concept !! Some lang = database.c_altLabels row !! lang ∧
         Concept.scopeNotes concept !! Some lang = database.c_scopeNotes row !! lang) ∧
  ((∀ row, row ∈ database.concepts engine → database.c_iri row ≠ concept_iri) →
   database.get_concept engine concept_iri = Ok None) ∧
  (∀ concept,
     database.get_concept engine concept_iri = Ok (Some concept) →
     ∃ row, row ∈ database.concepts engine ∧ database.c_iri row = concept_iri).
Proof.
  intros (_ & Hunique & _). unfold database.get_concept. simpl.
  rewrite where_eq_iri.
  destruct (filter_unique_key database.c_iri concept_iri _ Hunique)
    as [[Hnil Hnone]|(row & Hone & Hrow & Hkey)].
  - rewrite Hnil. simpl. split_and!; [by eexists| |done|done].
    intros row Hrow Hkey. by destruct (Hnone row Hrow).
  - rewrite Hone. simpl.
    assert (∀ row', row' ∈ database.concepts engine →
                    database.c_iri row' = concept_iri → row' = row) as Honly.
    { intros row' Hrow' Hkey'.
      assert (row' ∈ [row]) as Hin
        by (rewrite <-Hone; by apply list_elem_of_filter).
      by apply list_elem_of_singleton in Hin. }
    split_and!; [by eexists| | |by exists row].
    + intros row' Hrow' Hkey'. rewrite (Honly row' Hrow' Hkey'). split; [done|].
      exists (database.load_concept engine row). split; [done|].
      unfold database.load_concept.
      cbn [Concept.iri Concept.identifier Concept.notation Concept.prefLabels
           Concept.altLabels Concept.scopeNotes].
      rewrite Hkey. split_and!; [done..|].
      intros lang. by rewrite !(proj2 (from_jsonb_lookup _)).
    + intros Hnone. by destruct (Hnone row Hrow).
Qed.

Lemma get_concept_one_or_none_witness :
  ∃ concept,
    database.get_concept sample.db "urn:a" = Ok (Some concept) ∧
    Concept.iri concept = Some "urn:a" ∧
    Concept.prefLabels concept !! Some "en" = Some (Some "Plastics").
Proof.
  destruct (get_concept_one_or_none sample.db "urn:a") as (_ & Hfound & _).
  { unfold database.keys_unique. apply (bool_decide_unpack _). vm_compute. exact I. }
  destruct (Hfound {| database.c_iri := "urn:a";
                      database.c_identifier := "";
                      database.c_notation := "";
                      database.c_prefLabels := <["en" := Some "Plastics"]> ∅;
                      database.c_altLabels := ∅;
                      database.c_scopeNotes := ∅ |})
    as (_ & concept & Hget & Hiri & _ & _ & Hlabels).
  { vm_compute. left. }
  { reflexivity. }
  exists concept. split_and!; [exact Hget|exact Hiri|].
  rewrite (proj1 (Hlabels "en")). reflexivity.
Defined.

(** ** Persistence *)

#[global] Instance extends_reflexive : Reflexive database.extends.
Proof. intros db. by unfold database.extends. Qed.

#[global] Instance extends_transitive : Transitive database.extends.
Proof.
  intros db1 db2 db3 (? & ? & ? & ?) (? & ? & ? & ?).
  unfold database.extends. split_and!; by etrans.
Qed.

Section persistence.

Import database.

Lemma concept_scheme_stored_mono db db' s :
  extends db db' → concept_scheme_stored db s → concept_scheme_stored db' s.
Proof. intros (Hsub & _) (row & ? & ?). exists row. split; [done|by apply Hsub]. Qed.

Lemma concept_stored_mono db db' c :
  extends db db' → concept_stored db c → concept_stored db' c.
Proof. intros (_ & Hsub & _) (row & ? & ?). exists row. split; [done|by apply Hsub]. Qed.

Lemma in_scheme_stored_mono db db' link :
  extends db db' → in_scheme_stored db link → in_scheme_stored db' link.
Proof. intros (_ & _ & Hsub & _) (row & ? & ?). exists row. split; [done|by apply Hsub]. Qed.

Lemma semantic_relation_stored_mono db db' r :
  extends db db' → semantic_relation_stored db r → semantic_relation_stored db' r.
Proof. intros (_ & _ & _ & Hsub) (row & ? & ?). exists row. split; [done|by apply Hsub]. Qed.


Lemma NoDup_snoc {A} (l : list A) (x : A) : NoDup l → x ∉ l → NoDup (l ++ [x]).
Proof.
  intros Hl Hx. apply NoDup_app. split_and!; [done| |apply NoDup_singleton].
  intros y Hy ->%list_elem_of_singleton. done.
Qed.

Lemma insert_concept_scheme_inserts :
  inserts insert_concept_scheme concept_scheme_stored.
Proof.
  intros s db db'. unfold insert_concept_scheme.
  destruct (concept_scheme_row s) as [row|] eqn:Hrow; simpl; [|done].
  case_bool_decide as Hkey; [done|]. intros [= <-]. split_and!.
  - unfold extends; simpl. split_and!; set_solver.
  - intros (? & ? & ? & ?). unfold keys_unique; simpl. split_and!; try done.
    rewrite fmap_app. by apply NoDup_snoc.
  - exists row. simpl. split; [done|set_solver].
Qed.

Lemma insert_concept_inserts : inserts insert_concept concept_stored.
Proof.
  intros c db db'. unfold insert_concept.
  destruct (concept_row c) as [row|] eqn:Hrow; simpl; [|done].
  case_bool_decide as Hkey; [done|]. intros [= <-]. split_and!.
  - unfold extends; simpl. split_and!; set_solver.
  - intros (? & ? & ? & ?). unfold keys_unique; simpl. split_and!; try done.
    rewrite fmap_app. by apply NoDup_snoc.
  - exists row. simpl. split; [done|set_solver].
Qed.

Lemma insert_in_scheme_inserts : inserts insert_in_scheme in_scheme_stored.
Proof.
  intros link db db'. unfold insert_in_scheme.
  destruct (in_scheme_row link) as [row|] eqn:Hrow; simpl; [|done].
  case_bool_decide as Hkey; [done|].
  destruct (_ && _); [|done]. intros [= <-]. split_and!.
  - unfold extends; simpl. split_and!; set_solver.
  - intros (? & ? & ? & ?). unfold keys_unique; simpl. split_and!; try done.
    by apply NoDup_snoc.
  - exists row. simpl. split; [done|set_solver].
Qed.

Lemma insert_semantic_relation_inserts :
  inserts insert_semantic_relation semantic_relation_stored.
Proof.
  intros r db db'. unfold insert_semantic_relation.
  destruct (semantic_relation_row r) as [row|] eqn:Hrow; simpl; [|done].
  case_bool_decide as Hkey; [done|].
  destruct (_ && _); [|done]. intros [= <-]. split_and!.
  - unfold extends; simpl. split_and!; set_solver.
  - intros (? & ? & ? & ?). unfold keys_unique; simpl. split_and!; try done.
    rewrite fmap_app. by apply NoDup_snoc.
  - exists row. simpl. split; [done|set_solver].
Qed.

(** A run of INSERTs only adds rows, keeps the keys unique, and when it
    runs to its end every object has its row. *)
Lemma insert_all_spec {A} (insert : A → DB → result DB) (stored : DB → A → Prop)
    (objects : list A) (txn : DB) :
  inserts insert stored →
  (∀ db db' x, extends db db' → stored db x → stored db' x) →
  extends txn (insert_all insert objects txn).1 ∧
  (keys_unique txn → keys_unique (insert_all insert objects txn).1) ∧
  ((insert_all insert objects txn).2 = Ok () →
   ∀ x, x ∈ objects → stored (insert_all insert objects txn).1 x).
Proof.
  intros Hins Hmono. revert txn.
  induction objects as [|x objects IH]; intros txn; simpl.
  - split_and!; [done..|]. intros _ x. by rewrite elem_of_nil.
  - destruct (insert x txn) as [txn'|e] eqn:Hx; simpl.
    + destruct (Hins _ _ _ Hx) as (Hext & Hkeys & Hstored).
      destruct (IH txn') as (Hext' & Hkeys' & Hstored').
      split_and!; [by etrans|by auto|].
      intros Hok y [->|Hy]%elem_of_cons; [by eapply Hmono|by apply Hstored'].
    + split_and!; done.
Qed.

(** *** The session *)

Lemma add_spec (session : Session) (obj : Record_) :
  committed (add session obj) = committed session ∧
  transaction (add session obj) = transaction session ∧
  new session ⊆ new (add session obj) ∧
  obj ∈ new (add session obj) ∧
  (∀ c s, obj = RConcept c → s ∈ Concept.concept_schemes c →
          RScheme s ∈ new (add session obj)).
Proof.
  unfold add; simpl. split_and!; [done|done|set_solver|set_solver|].
  intros c s -> Hs. destruct (decide (RScheme s ∈ new session)) as [Hin|Hnotin].
  - set_solver.
  - apply elem_of_app. right. right. apply list_elem_of_fmap_2.
    by apply list_elem_of_filter.
Qed.

Lemma add_all_spec (objs : list Record_) (session : Session) :
  committed (add_all session objs) = committed session ∧
  transaction (add_all session objs) = transaction session ∧
  new session ⊆ new (add_all session objs) ∧
  objs ⊆ new (add_all session objs) ∧
  (∀ c s, RConcept c ∈ objs → s ∈ Concept.concept_schemes c →
          RScheme s ∈ new (add_all session objs)).
Proof.
  unfold add_all. revert session.
  induction objs as [|obj objs IH]; intros session; simpl.
  - split_and!; [done|done|done|set_solver|]. intros c s. by rewrite elem_of_nil.
  - destruct (IH (add session obj)) as (Hc & Ht & Hn & Ho & Hs).
    destruct (add_spec session obj) as (Hc' & Ht' & Hn' & Ho' & Hs').
    split_and!.
    + by rewrite Hc.
    + by rewrite Ht.
    + by etrans.
    + intros x [->|Hx]%elem_of_cons; [by apply Hn|by apply Ho].
    + intros c s [Heq|Hc0]%elem_of_cons Hsc; [|by eapply Hs].
      apply Hn. eapply Hs'; [by symmetry|done].
Qed.

Lemma elem_of_pending_schemes objs s : s ∈ pending_schemes objs ↔ RScheme s ∈ objs.
Proof.
  unfold pending_schemes. rewrite list_elem_of_omap. split.
  - intros (o & Ho & Heq). destruct o; by simplify_eq.
  - intros Ho. by exists (RScheme s).
Qed.

Lemma elem_of_pending_concepts objs c : c ∈ pending_concepts objs ↔ RConcept c ∈ objs.
Proof.
  unfold pending_concepts. rewrite list_elem_of_omap. split.
  - intros (o & Ho & Heq). destruct o; by simplify_eq.
  - intros Ho. by exists (RConcept c).
Qed.

Lemma elem_of_pending_relations objs r : r ∈ pending_relations objs ↔ RRelation r ∈ objs.
Proof.
  unfold pending_relations. rewrite list_elem_of_omap. split.
  - intros (o & Ho & Heq). destruct o; by simplify_eq.
  - intros Ho. by exists (RRelation r).
Qed.

(** A flush leaves the stored state alone, only adds rows to the
    transaction, and when it succeeds every pending object is in it. *)
Lemma flush_spec (session : Session) :
  committed (flush session).1 = committed session ∧
  extends (transaction session) (transaction (flush session).1) ∧
  (keys_unique (transaction session) → keys_unique (transaction (flush session).1)) ∧
  ((flush session).2 = Ok () →
   (∀ s, RScheme s ∈ new session →
         concept_scheme_stored (transaction (flush session).1) s) ∧
   (∀ c, RConcept c ∈ new session →
         concept_stored (transaction (flush session).1) c ∧
         ∀ s, s ∈ Concept.concept_schemes c →
              in_scheme_stored (transaction (flush session).1)
                               (ConceptScheme.iri s, Concept.iri c)) ∧
   (∀ r, RRelation r ∈ new session →
         semantic_relation_stored (transaction (flush session).1) r)).
Proof.
  unfold flush.
  pose proof (insert_all_spec insert_concept_scheme concept_scheme_stored
                (pending_schemes (new session)) (transaction session)
                insert_concept_scheme_inserts concept_scheme_stored_mono) as H1.
  destruct (insert_all insert_concept_scheme _ _) as [t1 [[]|e1]]; simpl in *;
    [|destruct H1 as (? & ? & _); split_and!; done].
  pose proof (insert_all_spec insert_concept concept_stored
                (pending_concepts (new session)) t1
                insert_concept_inserts concept_stored_mono) as H2.
  destruct (insert_all insert_concept _ _) as [t2 [[]|e2]]; simpl in *;
    [|destruct H1 as (? & ? & _), H2 as (? & ? & _);
      split_and!; [done|by etrans|by auto|done]].
  pose proof (insert_all_spec insert_in_scheme in_scheme_stored
                (pending_concepts (new session) ≫= links) t2
                insert_in_scheme_inserts in_scheme_stored_mono) as H3.
  destruct (insert_all insert_in_scheme _ _) as [t3 [[]|e3]]; simpl in *;
    [|destruct H1 as (? & ? & _), H2 as (? & ? & _), H3 as (? & ? & _);
      split_and!; [done|by do 2 etrans|by auto|done]].
  pose proof (insert_all_spec insert_semantic_relation semantic_relation_stored
                (pending_relations (new session)) t3
                insert_semantic_relation_inserts semantic_relation_stored_mono) as H4.
  destruct (insert_all insert_semantic_relation _ _) as [t4 [[]|e4]]; simpl in *;
    destruct H1 as (E1 & K1 & S1), H2 as (E2 & K2 & S2), H3 as (E3 & K3 & S3),
             H4 as (E4 & K4 & S4);
    (split_and!; [done|by do 3 etrans|by auto|]); [|done].
  intros _. split_and!.
  - intros s Hs%elem_of_pending_schemes.
    eapply concept_scheme_stored_mono; [|by apply S1].
    by do 2 etrans.
  - intros c Hc%elem_of_pending_concepts. split.
    + eapply concept_stored_mono; [|by apply S2]. by etrans.
    + intros s Hs. eapply in_scheme_stored_mono; [done|].
      apply S3; [done|]. apply list_elem_of_bind. exists c. split; [|done].
      unfold links. apply list_elem_of_fmap. by exists s.
  - intros r Hr%elem_of_pending_relations. by apply S4.
Qed.

Lemma commit_spec (session : Session) :
  match (commit session).2 with
  | Ok _ => committed (commit session).1 = transaction (flush session).1 ∧
            (flush session).2 = Ok ()
  | Raise _ => committed (commit session).1 = committed session
  end.
Proof.
  unfold commit. destruct (flush_spec session) as (Hc & _).
  destruct (flush session) as [session' [[]|e]]; simpl in *; done.
Qed.

Lemma save_dataset_spec (engine : DB) (concept_schemes : list ConceptScheme.t)
    (concepts : list Concept.t) (semantic_relations : list SemanticRelation.t) :
  let saved := save_dataset engine concept_schemes concepts semantic_relations in
  extends engine saved.1 ∧
  (keys_unique engine → keys_unique saved.1) ∧
  match saved.2 with
  | Ok _ => batch_stored saved.1 concept_schemes concepts semantic_relations
  | Raise _ => saved.1 = engine
  end.
Proof.
  unfold save_dataset.
  set (s1 := add_all (Session_open engine) (RScheme <$> concept_schemes)).
  set (s2 := add_all s1 (RConcept <$> concepts)).
  set (s3 := add_all s2 (RRelation <$> semantic_relations)).
  destruct (add_all_spec (RScheme <$> concept_schemes) (Session_open engine))
    as (C1 & T1 & _ & O1 & _).
  destruct (add_all_spec (RConcept <$> concepts) s1) as (C2 & T2 & N2 & O2 & S2).
  destruct (add_all_spec (RRelation <$> semantic_relations) s2)
    as (C3 & T3 & N3 & O3 & _).
  fold s1 in C1, T1, O1. fold s2 in C2, T2, N2, O2, S2. fold s3 in C3, T3, N3, O3.
  assert (committed s3 = engine) as Hcommitted by by rewrite C3, C2, C1.
  assert (transaction s3 = engine) as Htransaction by by rewrite T3, T2, T1.
  pose proof (commit_spec s3) as Hcommit.
  destruct (flush_spec s3) as (_ & Hext & Hkeys & Hstored).
  rewrite Htransaction in Hext, Hkeys.
  destruct (commit s3) as [session [[]|e]]; unfold close; simpl in *.
  - destruct Hcommit as [-> Hok]. split_and!; [done..|].
    destruct (Hstored Hok) as (Hs & Hc & Hr). split_and!.
    + intros s Hin. apply Hs, N3, N2, O1. by apply list_elem_of_fmap_2.
    + intros c Hin.
      assert (RConcept c ∈ RConcept <$> concepts) as Hin'
        by by apply list_elem_of_fmap_2.
      destruct (Hc c) as [Hrow Hlinks]; [by apply N3, O2|].
      split; [done|]. intros s Hsc. split; [|by apply Hlinks].
      apply Hs, N3. by eapply S2.
    + intros r Hin. apply Hr, O3. by apply list_elem_of_fmap_2.
  - rewrite Hcommit, Hcommitted. split_and!; done.
Qed.

(** C8. [save_dataset] is atomic: when it returns, every scheme, concept
    (with its memberships) and relation of the batch has its row in the
    stored state, next to the rows that were there; when it raises, the
    stored state is the one it started from. *)
Theorem save_dataset_atomic (engine : DB) (concept_schemes : list ConceptScheme.t)
    (concepts : list Concept.t) (semantic_relations : list SemanticRelation.t) :
  let saved := save_dataset engine concept_schemes concepts semantic_relations in
  match saved.2 with
  | Ok _ =>
      batch_stored saved.1 concept_schemes concepts semantic_relations ∧
      extends engine saved.1
  | Raise _ => saved.1 = engine
  end.
Proof.
  intros saved.
  destruct (save_dataset_spec engine concept_schemes concepts semantic_relations)
    as (Hext & _ & Hsaved).
  fold saved in Hext, Hsaved. by destruct (saved.2).
Qed.

End persistence.

(** A batch whose second scheme repeats a stored key: the flush has
    written the first scheme into the transaction when the second is
    refused, and the stored state keeps none of the batch. *)
Example save_dataset_rolls_back :
  let session :=
    database.add_all (database.Session_open sample.db)
      [RScheme sample.new_scheme; RScheme sample.scheme] in
  (database.flush session).2 = Raise (database.unique_violation "concept_schemes") ∧
  database.cs_iri <$> database.concept_schemes
                        (database.transaction (database.flush session).1)
    = ["urn:scheme"; "urn:other"; "urn:new"] ∧
  database.save_dataset sample.db [sample.new_scheme; sample.scheme] [] []
    = (sample.db, Raise (database.unique_violation "concept_schemes")).
Proof. split_and!; reflexivity. Qed.

Example save_dataset_commits :
  (database.save_dataset database.empty_db
     [sample.scheme; sample.other_scheme] [sample.concept] []).2 = Ok () ∧
  database.cs_iri <$> database.concept_schemes sample.db = ["urn:scheme"; "urn:other"] ∧
  database.c_iri <$> database.concepts sample.db = ["urn:a"] ∧
  database.in_scheme sample.db
    = [{| database.scheme_iri := "urn:scheme"; database.concept_iri := "urn:a" |}].
Proof. split_and!; reflexivity. Qed.

(** ** Batch ingestion *)

Section ingestion.

Import controllers.
Open Scope list_scope.
Context `{Externals}.
Variable data_dir : Path.t.
Variable reload : bool.

Lemma init_engine_configured (environ : gmap string string)
    (database : option database.DB) (url : string) :
  environ !! "DATABASE_URL" = Some url → url ≠ "" →
  database.init_engine None true environ database = Ok database.empty_db.
Proof.
  intros Hurl Hne. unfold database.init_engine. rewrite Hurl.
  destruct url; [done|]. by destruct database.
Qed.

(** Without the configuration the engine cannot be set up, and that
    error is raised before the loop, outside its [try]. *)
Lemma init_datasets_unconfigured (datasets : list (string * string)) (world : World) :
  environ world !! "DATABASE_URL" = None →
  init_datasets_of data_dir datasets reload world
  = Raise (mkException ValueError "DATABASE_URL environment variable is not set.").
Proof.
  intros Hurl. unfold init_datasets_of, database.init_engine. by rewrite Hurl.
Qed.




(** What one iteration does to the variables of the loop. *)
Lemma init_dataset_spec (st : Loop) (dataset_file dataset_url : string) :
  let attempt := try_dataset data_dir reload (engine st) (data_dir_files st)
                   dataset_file dataset_url in
  let st' := init_dataset data_dir reload st (dataset_file, dataset_url) in
  engine st' = attempt.1.1 ∧
  data_dir_files st' = attempt.1.2 ∧
  match attempt.2 with
  | Ok _ =>
      saved_datasets st' = saved_datasets st ++ [saved_entry dataset_file dataset_url] ∧
      failed_datasets st' = failed_datasets st
  | Raise error =>
      saved_datasets st' = saved_datasets st ∧
      failed_datasets st' =
        failed_datasets st ++ [failed_entry dataset_file dataset_url error]
  end.
Proof.
  unfold init_dataset.
  destruct (try_dataset _ _ _ _ _ _) as [[engine' files'] [[]|e]]; simpl; done.
Qed.


(** The states the ingestion reaches have unique keys, which is what
    [get_concept] relies on. *)
Lemma empty_db_keys_unique : database.keys_unique database.empty_db.
Proof. unfold database.keys_unique; simpl. split_and!; apply NoDup_nil_2. Qed.

Lemma try_dataset_keys_unique (engine : database.DB) (files : gmap string string)
    (dataset_file dataset_url : string) :
  database.keys_unique engine →
  database.keys_unique
    (try_dataset data_dir reload engine files dataset_file dataset_url).1.1.
Proof.
  intros Hkeys. unfold try_dataset.
  destruct (load dataset_url reload files) as [ontology|e]; simpl; [|done].
  destruct (rdfxml ontology) as [content|e]; simpl; [|done].
  destruct (parse_dataset _ _) as [parsed|e]; simpl; [|done].
  destruct (save_dataset_spec engine (concept_schemes parsed) (concepts parsed)
              (semantic_relations parsed)) as (_ & Hsaved & _).
  destruct (database.save_dataset _ _ _ _) as [engine' outcome]; simpl in *. auto.
Qed.

Lemma init_datasets_loop_keys_unique (datasets : list (string * string)) (st : Loop) :
  database.keys_unique (engine st) →
  database.keys_unique (engine (init_datasets_loop data_dir reload datasets st)).
Proof.
  unfold init_datasets_loop. revert st.
  induction datasets as [|[dataset_file dataset_url] datasets IH]; intros st Hkeys;
    simpl; [done|].
  apply IH. pose proof (init_dataset_spec st dataset_file dataset_url) as (Hengine & _).
  simpl in Hengine. rewrite Hengine. by apply try_dataset_keys_unique.
Qed.

Lemma init_engine_drops (environ : gmap string string)
    (database : option database.DB) (initial : database.DB) :
  database.init_engine None true environ database = Ok initial →
  initial = database.empty_db.
Proof.
  unfold database.init_engine.
  destruct (environ !! "DATABASE_URL") as [[|a url]|]; [done| |done].
  destruct database; by intros [= <-].
Qed.

Lemma init_datasets_keys_unique (datasets : list (string * string)) (world : World)
    (saved failed : list (gmap string string)) (world' : World) :
  init_datasets_of data_dir datasets reload world = Ok (saved, failed, world') →
  ∃ stored, database world' = Some stored ∧ database.keys_unique stored.
Proof.
  unfold init_datasets_of.
  destruct (database.init_engine _ _ _ _) as [initial|e] eqn:Hinit; simpl; [|done].
  apply init_engine_drops in Hinit as ->. intros [= _ _ <-]. simpl.
  eexists. split; [done|].
  apply init_datasets_loop_keys_unique, empty_db_keys_unique.
Qed.





End ingestion.



(** The run on the sample world: the first dataset has schemes only and
    is saved, the second has a concept and fails in [parse_dataset], the
    others cannot be loaded. *)
Example init_datasets_sample :
  ∃ world',
    @controllers.init_datasets sample.externals (Path.Path "data") false sample.world
    = Ok ([controllers.saved_entry "ESTAT-CN2024.rdf"
             (controllers.base_url
              ++ "combined-nomenclature-2024/20240425-0/rdf/skos_core/ESTAT-CN2024.rdf")],
          (fun dataset : string * string =>
             controllers.failed_entry dataset.1 dataset.2
               (if bool_decide (dataset.1 = "ESTAT-LoW2015.rdf")
                then Concept.missing_concept_schemes
                else mkException OtherError "HTTP Error 404: Not Found"))
            <$> tail controllers.datasets,
          world') ∧
    database.cs_iri <$> (default [] (database.concept_schemes
                                        <$> controllers.database world'))
    = ["urn:scheme"; "urn:other"].
Proof. eexists. split; reflexivity. Qed.

(** * Further properties

    Properties of the same functions beyond the ones above, and of the
    functions around them. *)

(** ** Extraction from elements *)

Lemma findall_missing_prefix element prefix local :
  nsmap element !! prefix = None →
  findall element prefix local
  = Raise (mkException SyntaxError ("prefix '" ++ prefix ++ "' not found in prefix map")).
Proof. intros Hns. unfold findall. by rewrite Hns. Qed.

Lemma nsmap_getitem_missing element prefix :
  nsmap element !! prefix = None →
  nsmap_getitem element prefix = Raise (mkException KeyError ("'" ++ prefix ++ "'")).
Proof. intros Hns. unfold nsmap_getitem. by rewrite Hns. Qed.

Lemma get_sub_element_text_missing_prefix element prefix local default_value :
  nsmap element !! prefix = None →
  Base.get_sub_element_text element prefix local default_value
  = Raise (mkException SyntaxError ("prefix '" ++ prefix ++ "' not found in prefix map")).
Proof.
  intros Hns. unfold Base.get_sub_element_text, find.
  by rewrite findall_missing_prefix.
Qed.

(** X1. [get_sub_element_text] raises [SyntaxError] when the prefix of the
    tag is not in the element's prefix map; otherwise it returns the text
    of the first direct child with that tag, and the default value when
    there is none. *)
Theorem get_sub_element_text_first_or_default
    (element : Element) (prefix local : string) (default_value : option string) :
  (nsmap element !! prefix = None →
   Base.get_sub_element_text element prefix local default_value
   = Raise (mkException SyntaxError
              ("prefix '" ++ prefix ++ "' not found in prefix map"))) ∧
  (∀ uri, nsmap element !! prefix = Some uri →
     (sub_elements element uri local = [] →
      Base.get_sub_element_text element prefix local default_value
      = Ok default_value) ∧
     (∀ first others,
        sub_elements element uri local = first :: others →
        Base.get_sub_element_text element prefix local default_value
        = Ok (text first))).
Proof.
  split; [apply get_sub_element_text_missing_prefix|].
  intros uri Hns. rewrite (get_sub_element_text_Ok _ _ uri) by done.
  split; [by intros ->|by intros first others ->].
Qed.

Lemma get_sub_element_text_first_or_default_witness :
  Base.get_sub_element_text sample.scheme_element "core" "prefLabel" (Some "")
  = Ok (Some "Waste list").
Proof.
  destruct (proj2 (get_sub_element_text_first_or_default
                     sample.scheme_element "core" "prefLabel" (Some ""))
              sample.core eq_refl) as [_ Hfirst].
  apply (Hfirst (sample.label "prefLabel" "en" "Waste list")
                [sample.label "prefLabel" "fr" "Liste des dechets"]).
  reflexivity.
Defined.

Lemma lang_dict_snoc (labels : list Element) (label : Element) :
  Base.lang_dict (labels ++ [label])
  = <[get label (Base.xml_namespace ++ "lang") := text label]> (Base.lang_dict labels).
Proof. unfold Base.lang_dict. by rewrite foldl_app. Qed.

(** X2. The mapping a dictionary comprehension builds from label elements
    holds, under each language key, the text of the last label with that
    [xml:lang]; a language no label carries has no entry. *)
Theorem lang_dict_last_label (labels : list Element) (lang : option string) :
  Base.lang_dict labels !! lang
  = text <$> last (filter (fun label => get label (Base.xml_namespace ++ "lang") = lang)
                          labels).
Proof.
  induction labels as [|label labels IH] using rev_ind; [done|].
  rewrite lang_dict_snoc, filter_app, LangDict_lookup_insert.
  rewrite filter_cons, filter_nil. case_decide as Hlang.
  - by rewrite last_snoc.
  - by rewrite app_nil_r.
Qed.

(** ** Parsing schemes and concepts *)

Lemma ConceptScheme_from_xml_element_Ok (element : Element) (rdf core : string) :
  nsmap element !! "rdf" = Some rdf →
  nsmap element !! "core" = Some core →
  ConceptScheme.from_xml_element element
  = Ok {| ConceptScheme.iri := get element (clark rdf "about");
          ConceptScheme.notation :=
            match head (sub_elements element core "notation") with
            | Some e => text e
            | None => Some ""
            end;
          ConceptScheme.scopeNote :=
            match head (sub_elements element core "scopeNote") with
            | Some e => text e
            | None => Some ""
            end;
          ConceptScheme.prefLabels :=
            Base.lang_dict (sub_elements element core "prefLabel") |}.
Proof.
  intros Hrdf Hcore. unfold ConceptScheme.from_xml_element.
  rewrite (nsmap_getitem_Ok _ _ rdf) by done. simpl.
  rewrite !(get_sub_element_text_Ok _ "core" core) by done. simpl.
  by rewrite (findall_Ok _ _ core).
Qed.

(** X3. [ConceptScheme.from_xml_element] raises [KeyError] when the prefix
    [rdf] is not declared and [SyntaxError] when [rdf] is but [core] is
    not; otherwise it returns the scheme with [rdf:about] as IRI, the text
    of the first [notation] and [scopeNote] children (the empty string
    when there is none) and the mapping of its [prefLabel] children. *)
Theorem ConceptScheme_from_xml_element_cases (element : Element) :
  (nsmap element !! "rdf" = None →
   ConceptScheme.from_xml_element element
   = Raise (mkException KeyError "'rdf'")) ∧
  (∀ rdf, nsmap element !! "rdf" = Some rdf →
          nsmap element !! "core" = None →
          ConceptScheme.from_xml_element element
          = Raise (mkException SyntaxError "prefix 'core' not found in prefix map")) ∧
  (∀ rdf core,
     nsmap element !! "rdf" = Some rdf →
     nsmap element !! "core" = Some core →
     ConceptScheme.from_xml_element element
     = Ok {| ConceptScheme.iri := get element (clark rdf "about");
             ConceptScheme.notation :=
               match head (sub_elements element core "notation") with
               | Some e => text e
               | None => Some ""
               end;
             ConceptScheme.scopeNote :=
               match head (sub_elements element core "scopeNote") with
               | Some e => text e
               | None => Some ""
               end;
             ConceptScheme.prefLabels :=
               Base.lang_dict (sub_elements element core "prefLabel") |}).
Proof.
  unfold ConceptScheme.from_xml_element. split_and!.
  - intros Hrdf. by rewrite nsmap_getitem_missing.
  - intros rdf Hrdf Hcore. rewrite (nsmap_getitem_Ok _ _ rdf) by done. simpl.
    by rewrite (get_sub_element_text_missing_prefix _ "core" "notation").
  - intros rdf core. apply ConceptScheme_from_xml_element_Ok.
Qed.

Lemma ConceptScheme_from_xml_element_cases_witness :
  ConceptScheme.from_xml_element sample.scheme_element = Ok sample.scheme.
Proof.
  rewrite (proj2 (proj2 (ConceptScheme_from_xml_element_cases sample.scheme_element))
             sample.rdf sample.core eq_refl eq_refl).
  reflexivity.
Defined.

(** X4. [Concept.from_xml_element] raises [SyntaxError] when [core] is not
    declared, [KeyError] when [core] is but [rdf] is not, and
    [SyntaxError] when only [x_1.1] is missing; otherwise it returns the
    concept with the fields read from the element, whose schemes are those
    of the given list, in its order, whose IRI an [inScheme] child
    references: none when there is no such child. *)
Theorem Concept_from_xml_element_cases
    (element : Element) (concept_schemes : list ConceptScheme.t) :
  (nsmap element !! "core" = None →
   Concept.from_xml_element element concept_schemes
   = Raise (mkException SyntaxError "prefix 'core' not found in prefix map")) ∧
  (∀ core, nsmap element !! "core" = Some core →
           nsmap element !! "rdf" = None →
           Concept.from_xml_element element concept_schemes
           = Raise (mkException KeyError "'rdf'")) ∧
  (∀ core rdf,
     nsmap element !! "core" = Some core →
     nsmap element !! "rdf" = Some rdf →
     nsmap element !! "x_1.1" = None →
     Concept.from_xml_element element concept_schemes
     = Raise (mkException SyntaxError "prefix 'x_1.1' not found in prefix map")) ∧
  (∀ core rdf dc,
     nsmap element !! "core" = Some core →
     nsmap element !! "rdf" = Some rdf →
     nsmap element !! "x_1.1" = Some dc →
     ∃ concept,
       Concept.from_xml_element element concept_schemes = Ok concept ∧
       Concept.iri concept = get element (clark rdf "about") ∧
       Concept.identifier concept
         = match head (sub_elements element dc "identifier") with
           | Some e => text e
           | None => Some ""
           end ∧
       Concept.notation concept
         = match head (sub_elements element core "notation") with
           | Some e => text e
           | None => Some ""
           end ∧
       Concept.prefLabels concept
         = Base.lang_dict (sub_elements element core "prefLabel") ∧
       Concept.altLabels concept
         = Base.lang_dict (sub_elements element core "altLabel") ∧
       Concept.scopeNotes concept
         = Base.lang_dict (sub_elements element core "scopeNote") ∧
       Concept.concept_schemes concept `sublist_of` concept_schemes ∧
       (∀ s, s ∈ Concept.concept_schemes concept ↔
             s ∈ concept_schemes ∧
             ∃ reference,
               reference ∈ sub_elements element core "inScheme" ∧
               ConceptScheme.iri s = get reference (clark rdf "resource")) ∧
       (sub_elements element core "inScheme" = [] →
        Concept.concept_schemes concept = [])).
Proof.
  unfold Concept.from_xml_element. split_and!.
  - intros Hcore. by rewrite (findall_missing_prefix _ "core" "inScheme").
  - intros core Hcore Hrdf. rewrite !(findall_Ok _ _ core) by done. simpl.
    destruct (sub_elements element core "inScheme") as [|reference references]; simpl.
    + by rewrite nsmap_getitem_missing.
    + by rewrite nsmap_getitem_missing.
  - intros core rdf Hcore Hrdf Hdc. rewrite !(findall_Ok _ _ core) by done. simpl.
    rewrite (mapM_Ok _ (fun reference => get reference (clark rdf "resource")))
      by (intros; by rewrite (nsmap_getitem_Ok _ _ rdf)).
    simpl. rewrite (nsmap_getitem_Ok _ _ rdf) by done. simpl.
    by rewrite (get_sub_element_text_missing_prefix _ "x_1.1" "identifier").
  - intros core rdf dc Hcore Hrdf Hdc. rewrite !(findall_Ok _ _ core) by done. simpl.
    rewrite (mapM_Ok _ (fun reference => get reference (clark rdf "resource")))
      by (intros; by rewrite (nsmap_getitem_Ok _ _ rdf)).
    simpl. rewrite (nsmap_getitem_Ok _ _ rdf) by done. simpl.
    rewrite (get_sub_element_text_Ok _ "x_1.1" dc), (get_sub_element_text_Ok _ "core" core)
      by done.
    simpl. eexists. split; [done|]. simpl. split_and!; try done.
    + apply sublist_filter.
    + intros s. rewrite list_elem_of_filter, list_elem_of_fmap. split.
      * intros [(reference & ? & ?) ?]. eauto.
      * intros [? (reference & ? & ?)]. eauto.
    + intros ->. simpl. induction concept_schemes as [|s l IH]; [done|].
      rewrite filter_cons. case_decide as Hin; [|done]. by apply elem_of_nil in Hin.
Qed.

Lemma Concept_from_xml_element_cases_witness :
  ∃ concept,
    Concept.from_xml_element sample.concept_element [sample.scheme; sample.other_scheme]
    = Ok concept ∧
    Concept.iri concept = Some "urn:a".
Proof.
  destruct (proj2 (proj2 (proj2 (Concept_from_xml_element_cases sample.concept_element
                                   [sample.scheme; sample.other_scheme])))
              sample.core sample.rdf sample.dc eq_refl eq_refl eq_refl)
    as (concept & Hconcept & Hiri & _).
  exists concept. split; [exact Hconcept|]. rewrite Hiri. reflexivity.
Defined.

(** ** Parsing relations: errors and empty results *)

Lemma filter_no_match {A} (P : A → Prop) `{∀ x, Decision (P x)} (l : list A) :
  (∀ x, x ∈ l → ¬ P x) → filter P l = [].
Proof.
  induction l as [|x l IH]; intros Hnone; [done|].
  rewrite filter_cons. case_decide as HP.
  - by destruct (Hnone x); [left|].
  - apply IH. intros y Hy. apply Hnone. by right.
Qed.

(** X5. [SemanticRelation.from_xml_element] raises [SyntaxError] when
    [core] is not declared; it returns the empty list when no child
    carries a relation tag, whether or not [rdf] is declared; and it
    raises [KeyError] when a child carries a relation tag and [rdf] is not
    declared. *)
Theorem SemanticRelation_from_xml_element_edges (element : Element) :
  (nsmap element !! "core" = None →
   SemanticRelation.from_xml_element element
   = Raise (mkException SyntaxError "prefix 'core' not found in prefix map")) ∧
  (∀ core, nsmap element !! "core" = Some core →
     (∀ child, child ∈ children element → tag child ∉ relation_tags core) →
     SemanticRelation.from_xml_element element = Ok []) ∧
  (∀ core child, nsmap element !! "core" = Some core →
     nsmap element !! "rdf" = None →
     child ∈ children element →
     tag child ∈ relation_tags core →
     SemanticRelation.from_xml_element element
     = Raise (mkException KeyError "'rdf'")).
Proof.
  unfold SemanticRelation.from_xml_element, SemanticRelationType_members.
  split_and!.
  - intros Hcore. simpl. by rewrite (findall_missing_prefix _ "core" "broader").
  - intros core Hcore Hnone. simpl. rewrite !(findall_Ok _ _ core) by done.
    assert (∀ local, clark core local ∈ relation_tags core →
                     sub_elements element core local = []) as Hempty.
    { intros local Hlocal. apply filter_no_match.
      intros child Hchild Htag. apply (Hnone child Hchild). by rewrite Htag. }
    rewrite !Hempty by (unfold relation_tags, SemanticRelationType_members; simpl;
                        set_solver).
    done.
  - intros core child Hcore Hrdf Hchild Htag. simpl.
    rewrite !(findall_Ok _ _ core) by done.
    assert (∀ local, tag child = clark core local →
                     sub_elements element core local ≠ []) as Hfound.
    { intros local Hlocal Hnil.
      assert (child ∈ sub_elements element core local) as Hin
        by by apply list_elem_of_filter.
      rewrite Hnil in Hin. by apply elem_of_nil in Hin. }
    unfold relation_tags, SemanticRelationType_members in Htag. simpl in Htag.
    destruct (sub_elements element core "broader") eqn:H1; simpl;
      [|by rewrite nsmap_getitem_missing].
    destruct (sub_elements element core "narrower") eqn:H2; simpl;
      [|by rewrite nsmap_getitem_missing].
    destruct (sub_elements element core "related") eqn:H3; simpl;
      [|by rewrite nsmap_getitem_missing].
    destruct (sub_elements element core "broaderTransitive") eqn:H4; simpl;
      [|by rewrite nsmap_getitem_missing].
    destruct (sub_elements element core "narrowerTransitive") eqn:H5; simpl;
      [|by rewrite nsmap_getitem_missing].
    exfalso. rewrite !elem_of_cons, elem_of_nil in Htag.
    destruct Htag as [Ht|[Ht|[Ht|[Ht|[Ht|[]]]]]]; by eapply Hfound.
Qed.

Lemma SemanticRelation_from_xml_element_edges_witness :
  SemanticRelation.from_xml_element sample.scheme_element = Ok [].
Proof.
  apply (proj1 (proj2 (SemanticRelation_from_xml_element_edges sample.scheme_element))
           sample.core eq_refl).
  intros child Hchild. apply (bool_decide_unpack _).
  revert child Hchild. apply Forall_forall. apply (bool_decide_unpack _).
  vm_compute. exact I.
Defined.

(** ** Equality and localisation of records *)

Lemma value_inj : Inj (=) (=) value.
Proof. intros [] []; simpl; by intros [=]. Qed.

Lemma SemanticRelation_to_dict_inj : Inj (=) (=) SemanticRelation.to_dict.
Proof.
  intros r1 r2 Heq.
  destruct (SemanticRelation_to_dict_spec r1) as (_ & Ht1 & Hs1 & Hg1).
  destruct (SemanticRelation_to_dict_spec r2) as (_ & Ht2 & Hs2 & Hg2).
  simpl in *. rewrite Heq in Ht1, Hs1, Hg1.
  rewrite Ht2 in Ht1. rewrite Hs2 in Hs1. rewrite Hg2 in Hg1.
  destruct r1, r2; simpl in *. simplify_eq.
  f_equal. by apply value_inj.
Qed.

(** X6. [__eq__] is reflexive, symmetric and transitive, and two records
    of different classes are never equal. *)
Theorem eq_equivalence_within_class :
  (∀ a, __eq__ a a = true) ∧
  (∀ a b, __eq__ a b = __eq__ b a) ∧
  (∀ a b c, __eq__ a b = true → __eq__ b c = true → __eq__ a c = true) ∧
  (∀ s c, __eq__ (RScheme s) (RConcept c) = false) ∧
  (∀ s r, __eq__ (RScheme s) (RRelation r) = false) ∧
  (∀ c r, __eq__ (RConcept c) (RRelation r) = false).
Proof.
  unfold __eq__. split_and!.
  - intros a. by apply bool_decide_eq_true.
  - intros a b. apply bool_decide_ext. split; by intros ->.
  - intros a b c Hab%bool_decide_eq_true Hbc%bool_decide_eq_true.
    apply bool_decide_eq_true. by etrans.
  - intros s c. apply bool_decide_eq_false. simpl. intros Heq.
    destruct (Concept_to_dict_spec c "en") as (_ & _ & Hid & _). simpl in Hid.
    rewrite <-Heq in Hid. unfold ConceptScheme.to_dict in Hid.
    by rewrite !lookup_insert_ne, lookup_empty in Hid.
  - intros s r. apply bool_decide_eq_false. simpl. intros Heq.
    destruct (SemanticRelation_to_dict_spec r) as (_ & Hty & _). simpl in Hty.
    rewrite <-Heq in Hty. unfold ConceptScheme.to_dict in Hty.
    by rewrite !lookup_insert_ne, lookup_empty in Hty.
  - intros c r. apply bool_decide_eq_false. simpl. intros Heq.
    destruct (SemanticRelation_to_dict_spec r) as (_ & Hty & _). simpl in Hty.
    rewrite <-Heq in Hty. unfold Concept.to_dict in Hty.
    by rewrite !lookup_insert_ne, lookup_empty in Hty.
Qed.

Lemma eq_equivalence_within_class_witness :
  __eq__ (RScheme sample.scheme_relabelled) (RScheme sample.scheme) = true.
Proof.
  apply (proj1 (proj2 (proj2 eq_equivalence_within_class))
           _ (RScheme sample.scheme_relabelled)); reflexivity.
Defined.

(** X7. Two relations are equal exactly when they are the same relation;
    equal schemes, and equal concepts, have the same scalar fields and the
    same English-localised labels. *)
Theorem eq_true_agrees_on_fields :
  (∀ r1 r2 : SemanticRelation.t,
     __eq__ (RRelation r1) (RRelation r2) = true ↔ r1 = r2) ∧
  (∀ s1 s2 : ConceptScheme.t,
     __eq__ (RScheme s1) (RScheme s2) = true →
     ConceptScheme.iri s1 = ConceptScheme.iri s2 ∧
     ConceptScheme.notation s1 = ConceptScheme.notation s2 ∧
     ConceptScheme.scopeNote s1 = ConceptScheme.scopeNote s2 ∧
     Base.get_in_language (ConceptScheme.prefLabels s1) "en"
       = Base.get_in_language (ConceptScheme.prefLabels s2) "en") ∧
  (∀ c1 c2 : Concept.t,
     __eq__ (RConcept c1) (RConcept c2) = true →
     Concept.iri c1 = Concept.iri c2 ∧
     Concept.identifier c1 = Concept.identifier c2 ∧
     Concept.notation c1 = Concept.notation c2 ∧
     Base.get_in_language (Concept.prefLabels c1) "en"
       = Base.get_in_language (Concept.prefLabels c2) "en" ∧
     Base.get_in_language (Concept.altLabels c1) "en"
       = Base.get_in_language (Concept.altLabels c2) "en" ∧
     Base.get_in_language (Concept.scopeNotes c1) "en"
       = Base.get_in_language (Concept.scopeNotes c2) "en").
Proof.
  unfold __eq__. split_and!.
  - intros r1 r2. rewrite bool_decide_eq_true. simpl. split.
    + apply SemanticRelation_to_dict_inj.
    + by intros ->.
  - intros s1 s2 Heq%bool_decide_eq_true. simpl in Heq.
    destruct (ConceptScheme_to_dict_spec s1 "en") as (_ & Hi1 & Hn1 & Hs1 & Hp1).
    destruct (ConceptScheme_to_dict_spec s2 "en") as (_ & Hi2 & Hn2 & Hs2 & Hp2).
    simpl in *. rewrite Heq in Hi1, Hn1, Hs1, Hp1.
    split_and!; congruence.
  - intros c1 c2 Heq%bool_decide_eq_true. simpl in Heq.
    destruct (Concept_to_dict_spec c1 "en") as (_ & Hi1 & Hd1 & Hn1 & Hp1 & Ha1 & Hs1).
    destruct (Concept_to_dict_spec c2 "en") as (_ & Hi2 & Hd2 & Hn2 & Hp2 & Ha2 & Hs2).
    simpl in *. rewrite Heq in Hi1, Hd1, Hn1, Hp1, Ha1, Hs1.
    split_and!; congruence.
Qed.

Lemma eq_true_agrees_on_fields_witness :
  ConceptScheme.iri sample.scheme = ConceptScheme.iri sample.scheme_relabelled.
Proof.
  apply (proj1 (proj2 eq_true_agrees_on_fields) sample.scheme sample.scheme_relabelled).
  reflexivity.
Defined.

Lemma get_in_language_missing (attribute : LangDict) (lang : string) :
  attribute !! Some lang = None →
  Base.get_in_language attribute lang = Base.get_in_language attribute "en".
Proof.
  intros Hlang. unfold Base.get_in_language. rewrite !dict_get_lookup, Hlang. simpl.
  by destruct (attribute !! Some "en").
Qed.

(** X8. For a language none of a record's label mappings has, [to_dict]
    returns the English dictionary. *)
Theorem to_dict_falls_back_to_english (lang : string) :
  (∀ s : ConceptScheme.t,
     ConceptScheme.prefLabels s !! Some lang = None →
     ConceptScheme.to_dict s lang = ConceptScheme.to_dict s "en") ∧
  (∀ c : Concept.t,
     Concept.prefLabels c !! Some lang = None →
     Concept.altLabels c !! Some lang = None →
     Concept.scopeNotes c !! Some lang = None →
     Concept.to_dict c lang = Concept.to_dict c "en").
Proof.
  split.
  - intros s Hp. unfold ConceptScheme.to_dict. by rewrite get_in_language_missing.
  - intros c Hp Ha Hs. unfold Concept.to_dict.
    by rewrite !(get_in_language_missing _ lang).
Qed.

Lemma to_dict_falls_back_to_english_witness :
  ConceptScheme.to_dict sample.scheme "de" = ConceptScheme.to_dict sample.scheme "en".
Proof.
  apply (proj1 (to_dict_falls_back_to_english "de") sample.scheme). reflexivity.
Defined.

(** ** The engine and the stored state *)

Section stored_state.

Import database.
Open Scope list_scope.

(** X9. [init_engine] raises [ValueError] when the URL it is given is
    empty, or when it is given none and [DATABASE_URL] is unset or empty.
    With a URL (the argument before the environment) it returns empty
    tables for a database that did not exist or when the drop flag is set,
    and the stored tables as they are otherwise. *)
Theorem init_engine_cases (drop_database_flag : bool)
    (environ : gmap string string) (database : option DB) :
  (∀ database_url,
     (database_url = Some "" ∨
      database_url = None ∧
      (environ !! "DATABASE_URL" = None ∨ environ !! "DATABASE_URL" = Some "")) →
     init_engine database_url drop_database_flag environ database
     = Raise (mkException ValueError "DATABASE_URL environment variable is not set.")) ∧
  (∀ database_url url,
     (database_url = Some url ∨
      database_url = None ∧ environ !! "DATABASE_URL" = Some url) →
     url ≠ "" →
     init_engine database_url drop_database_flag environ database
     = Ok (match database with
           | Some stored => if drop_database_flag then empty_db else stored
           | None => empty_db
           end)).
Proof.
  unfold init_engine. split.
  - intros database_url [->|[-> [->| ->]]]; done.
  - intros database_url url [->|[-> ->]] Hne; by destruct url.
Qed.

Lemma init_engine_cases_witness :
  init_engine None false (<["DATABASE_URL" := "postgresql://localhost/glossary"]> ∅)
    (Some sample.db)
  = Ok sample.db.
Proof.
  apply (proj2 (init_engine_cases false
                  (<["DATABASE_URL" := "postgresql://localhost/glossary"]> ∅)
                  (Some sample.db))
           None "postgresql://localhost/glossary").
  - right. split; reflexivity.
  - discriminate.
Defined.

Lemma concept_scheme_row_fields (s : ConceptScheme.t) (row : ConceptSchemeRow) :
  concept_scheme_row s = Ok row →
  ConceptScheme.iri s = Some (cs_iri row) ∧
  ConceptScheme.notation s = Some (cs_notation row) ∧
  ConceptScheme.scopeNote s = Some (cs_scopeNote row) ∧
  cs_prefLabels row = jsonb (ConceptScheme.prefLabels s).
Proof.
  unfold concept_scheme_row, not_null. destruct s as [[i|] [n|] [sn|] labels]; simpl;
    try done.
  by intros [= <-].
Qed.

Lemma concept_row_fields (c : Concept.t) (row : ConceptRow) :
  concept_row c = Ok row →
  Concept.iri c = Some (c_iri row) ∧
  Concept.identifier c = Some (c_identifier row) ∧
  Concept.notation c = Some (c_notation row) ∧
  c_prefLabels row = jsonb (Concept.prefLabels c) ∧
  c_altLabels row = jsonb (Concept.altLabels c) ∧
  c_scopeNotes row = jsonb (Concept.scopeNotes c).
Proof.
  unfold concept_row, not_null.
  destruct c as [[i|] [d|] [n|] pref alt notes schemes]; simpl; try done.
  by intros [= <-].
Qed.

Lemma semantic_relation_row_load (r : SemanticRelation.t) (row : SemanticRelationRow) :
  semantic_relation_row r = Ok row →
  load_semantic_relation row = r ∧
  SemanticRelation.source_concept_iri r = Some (r_source_concept_iri row) ∧
  SemanticRelation.target_concept_iri r = Some (r_target_concept_iri row).
Proof.
  unfold semantic_relation_row, not_null. destruct r as [ty [src|] [tgt|]]; simpl;
    try done.
  by intros [= <-].
Qed.

(** With unique keys the row stored under an IRI is the one [get_concept]
    loads. *)
Lemma get_concept_stored_row (engine : DB) (row : ConceptRow) :
  keys_unique engine → row ∈ concepts engine →
  get_concept engine (c_iri row) = Ok (Some (load_concept engine row)).
Proof.
  intros (_ & Hunique & _) Hrow. unfold get_concept. simpl. rewrite where_eq_iri.
  destruct (filter_unique_key c_iri (c_iri row) _ Hunique)
    as [[_ Hnone]|(row' & Hone & _)].
  - by destruct (Hnone row Hrow).
  - rewrite Hone. simpl. do 2 f_equal.
    assert (row ∈ [row']) as Hin by (rewrite <-Hone; by apply list_elem_of_filter).
    by apply list_elem_of_singleton in Hin as ->.
Qed.

(** X10. After a successful save on a state with unique keys, every
    concept of the batch is found by [get_concept] under its IRI.  What is
    found has the IRI, the identifier and the notation of the concept and
    serialises to the same dictionary in every language other than
    "null"; in "null" as well when no label of the concept lacks its
    language tag (the JSONB columns keep such a label under the key
    "null"). *)
Theorem save_then_get_concept (engine : DB)
    (concept_schemes : list ConceptScheme.t) (concepts : list Concept.t)
    (semantic_relations : list SemanticRelation.t) (concept : Concept.t) :
  let saved := save_dataset engine concept_schemes concepts semantic_relations in
  keys_unique engine →
  saved.2 = Ok () →
  concept ∈ concepts →
  ∃ iri found,
    Concept.iri concept = Some iri ∧
    get_concept saved.1 iri = Ok (Some found) ∧
    Concept.iri found = Concept.iri concept ∧
    Concept.identifier found = Concept.identifier concept ∧
    Concept.notation found = Concept.notation concept ∧
    (∀ lang,
       lang ≠ "null" ∨
       Concept.prefLabels concept !! None = None ∧
       Concept.altLabels concept !! None = None ∧
       Concept.scopeNotes concept !! None = None →
       Concept.to_dict found lang = Concept.to_dict concept lang).
Proof.
  intros saved Hkeys Hok Hin.
  destruct (save_dataset_spec engine concept_schemes concepts semantic_relations)
    as (_ & Hkeys' & Hstored).
  fold saved in Hkeys', Hstored. rewrite Hok in Hstored.
  destruct Hstored as (_ & Hconcepts & _).
  destruct (Hconcepts concept Hin) as [(row & Hrow & Hrow_in) Hlinks].
  destruct (concept_row_fields _ _ Hrow) as (Hi & Hd & Hn & Hp & Ha & Hs).
  exists (c_iri row), (load_concept saved.1 row).
  unfold Concept.to_dict, load_concept.
  cbn [Concept.iri Concept.identifier Concept.notation Concept.prefLabels
       Concept.altLabels Concept.scopeNotes].
  rewrite Hi, Hd, Hn, Hp, Ha, Hs. split_and!; [done| |done..|].
  - rewrite (get_concept_stored_row saved.1 row) by auto.
    unfold load_concept. by rewrite Hp, Ha, Hs.
  - intros lang Hlang. rewrite !get_in_language_stored; [done|..];
      destruct Hlang as [?|(? & ? & ?)]; auto.
Qed.

Lemma save_then_get_concept_witness :
  ∃ found,
    get_concept sample.db "urn:a" = Ok (Some found) ∧
    Concept.to_dict found "fr" = Concept.to_dict sample.concept "fr".
Proof.
  destruct (save_then_get_concept empty_db [sample.scheme; sample.other_scheme]
              [sample.concept] [] sample.concept)
    as (iri & found & Hiri & Hfound & _ & _ & _ & Hdict).
  - unfold keys_unique. apply (bool_decide_unpack _). vm_compute. exact I.
  - reflexivity.
  - left.
  - injection Hiri as <-. exists found. split; [exact Hfound|].
    apply Hdict. left. discriminate.
Defined.

(** A label without a language tag is kept under the key "null": read
    back, the concept answers [to_dict("null")] with that label, where the
    concept that was saved answers with its English one; in any other
    language the two agree. *)
Example untagged_label_is_stored_under_null :
  let saved := save_dataset empty_db [] [sample.untagged_concept] [] in
  saved.2 = Ok () ∧
  ∃ found,
    get_concept saved.1 "urn:u" = Ok (Some found) ∧
    Concept.to_dict found "null" !! "prefLabel" = Some (Some "Sans langue") ∧
    Concept.to_dict sample.untagged_concept "null" !! "prefLabel"
      = Some (Some "Tagged") ∧
    Concept.to_dict found "fr" = Concept.to_dict sample.untagged_concept "fr".
Proof. split; [reflexivity|]. eexists. split_and!; reflexivity. Qed.

(** X11. After a successful save every relation of the batch has both
    endpoints, and [get_relations] returns it for its source and for its
    target. *)
Theorem save_then_get_relations (engine : DB)
    (concept_schemes : list ConceptScheme.t) (concepts : list Concept.t)
    (semantic_relations : list SemanticRelation.t) (r : SemanticRelation.t) :
  let saved := save_dataset engine concept_schemes concepts semantic_relations in
  saved.2 = Ok () →
  r ∈ semantic_relations →
  ∃ source target,
    SemanticRelation.source_concept_iri r = Some source ∧
    SemanticRelation.target_concept_iri r = Some target ∧
    r ∈ get_relations saved.1 source ∧
    r ∈ get_relations saved.1 target.
Proof.
  intros saved Hok Hin.
  destruct (save_dataset_spec engine concept_schemes concepts semantic_relations)
    as (_ & _ & Hstored).
  fold saved in Hstored. rewrite Hok in Hstored.
  destruct Hstored as (_ & _ & Hrelations).
  destruct (Hrelations r Hin) as (row & Hrow & Hrow_in).
  destruct (semantic_relation_row_load _ _ Hrow) as (Hload & Hsrc & Htgt).
  exists (r_source_concept_iri row), (r_target_concept_iri row).
  split_and!; [done|done| |]; unfold get_relations; apply list_elem_of_fmap;
    exists row; (split; [done|]); apply list_elem_of_filter; auto.
Qed.

Lemma save_then_get_relations_witness :
  ∃ source target,
    SemanticRelation.source_concept_iri sample.relation = Some source ∧
    SemanticRelation.target_concept_iri sample.relation = Some target ∧
    sample.relation ∈ get_relations
      (save_dataset sample.db [] [sample.other_concept] [sample.relation]).1 source.
Proof.
  destruct (save_then_get_relations sample.db [] [sample.other_concept]
              [sample.relation] sample.relation)
    as (source & target & Hsource & Htarget & Hfound & _).
  - reflexivity.
  - left.
  - exists source, target. split_and!; [exact Hsource|exact Htarget|exact Hfound].
Defined.

Lemma insert_all_preserves {A} (insert : A → DB → result DB) (P : DB → Prop)
    (objects : list A) (txn : DB) :
  (∀ x db db', insert x db = Ok db' → P db → P db') →
  P txn → P (insert_all insert objects txn).1.
Proof.
  intros Hins. revert txn. induction objects as [|x objects IH]; intros txn HP; simpl.
  - done.
  - destruct (insert x txn) as [txn'|e] eqn:Hx; simpl; [|done].
    apply IH. by eapply Hins.
Qed.

(** An invariant every INSERT keeps is kept by [save_dataset]. *)
Lemma save_dataset_preserves (P : DB → Prop) (engine : DB)
    (concept_schemes : list ConceptScheme.t) (concepts : list Concept.t)
    (semantic_relations : list SemanticRelation.t) :
  (∀ x db db', insert_concept_scheme x db = Ok db' → P db → P db') →
  (∀ x db db', insert_concept x db = Ok db' → P db → P db') →
  (∀ x db db', insert_in_scheme x db = Ok db' → P db → P db') →
  (∀ x db db', insert_semantic_relation x db = Ok db' → P db → P db') →
  P engine →
  P (save_dataset engine concept_schemes concepts semantic_relations).1.
Proof.
  intros H1 H2 H3 H4 HP. unfold save_dataset.
  set (s1 := add_all (Session_open engine) (RScheme <$> concept_schemes)).
  set (s2 := add_all s1 (RConcept <$> concepts)).
  set (s3 := add_all s2 (RRelation <$> semantic_relations)).
  destruct (add_all_spec (RScheme <$> concept_schemes) (Session_open engine))
    as (C1 & T1 & _).
  destruct (add_all_spec (RConcept <$> concepts) s1) as (C2 & T2 & _).
  destruct (add_all_spec (RRelation <$> semantic_relations) s2) as (C3 & T3 & _).
  fold s1 in C1, T1. fold s2 in C2, T2. fold s3 in C3, T3.
  assert (committed s3 = engine) as Hcommitted by by rewrite C3, C2, C1.
  assert (transaction s3 = engine) as Htransaction by by rewrite T3, T2, T1.
  assert (P (transaction (flush s3).1)) as Hflush.
  { unfold flush. simpl. rewrite Htransaction.
    pose proof (insert_all_preserves insert_concept_scheme P
                  (pending_schemes (new s3)) engine H1 HP) as P1.
    destruct (insert_all insert_concept_scheme _ _) as [t1 [[]|e1]]; simpl in *;
      [|done].
    pose proof (insert_all_preserves insert_concept P
                  (pending_concepts (new s3)) t1 H2 P1) as P2.
    destruct (insert_all insert_concept _ _) as [t2 [[]|e2]]; simpl in *; [|done].
    pose proof (insert_all_preserves insert_in_scheme P
                  (pending_concepts (new s3) ≫= links) t2 H3 P2) as P3.
    destruct (insert_all insert_in_scheme _ _) as [t3 [[]|e3]]; simpl in *; [|done].
    pose proof (insert_all_preserves insert_semantic_relation P
                  (pending_relations (new s3)) t3 H4 P3) as P4.
    by destruct (insert_all insert_semantic_relation _ _) as [t4 [[]|e4]]. }
  pose proof (commit_spec s3) as Hcommit.
  destruct (commit s3) as [session [[]|e]]; unfold close; simpl in *.
  - destruct Hcommit as [-> _]. done.
  - by rewrite Hcommit, Hcommitted.
Qed.

Lemma save_dataset_preserves_references (engine : DB)
    (concept_schemes : list ConceptScheme.t) (concepts : list Concept.t)
    (semantic_relations : list SemanticRelation.t) :
  references_valid engine →
  references_valid
    (save_dataset engine concept_schemes concepts semantic_relations).1.
Proof.
  apply save_dataset_preserves.
  - intros s db db'. unfold insert_concept_scheme.
    destruct (concept_scheme_row s) as [row|]; simpl; [|done].
    case_bool_decide; [done|]. intros [= <-] [Hlinks Hrels].
    split; simpl; [|done]. intros link Hlink. destruct (Hlinks link Hlink).
    split; [|done]. rewrite fmap_app. apply elem_of_app. by left.
  - intros c db db'. unfold insert_concept.
    destruct (concept_row c) as [row|]; simpl; [|done].
    case_bool_decide; [done|]. intros [= <-] [Hlinks Hrels].
    split; simpl.
    + intros link Hlink. destruct (Hlinks link Hlink).
      split; [done|]. rewrite fmap_app. apply elem_of_app. by left.
    + intros rel Hrel. destruct (Hrels rel Hrel).
      rewrite fmap_app. split; apply elem_of_app; by left.
  - intros link db db'. unfold insert_in_scheme.
    destruct (in_scheme_row link) as [row|]; simpl; [|done].
    case_bool_decide; [done|].
    destruct (bool_decide (scheme_iri row ∈ _)) eqn:Hs; simpl; [|done].
    destruct (bool_decide (concept_iri row ∈ _)) eqn:Hc; simpl; [|done].
    apply bool_decide_eq_true in Hs, Hc.
    intros [= <-] [Hlinks Hrels]. split; simpl; [|done].
    intros row' [Hin| ->%list_elem_of_singleton]%elem_of_app; auto.
  - intros r db db'. unfold insert_semantic_relation.
    destruct (semantic_relation_row r) as [row|]; simpl; [|done].
    case_bool_decide; [done|].
    destruct (bool_decide (r_source_concept_iri row ∈ _)) eqn:Hs; simpl; [|done].
    destruct (bool_decide (r_target_concept_iri row ∈ _)) eqn:Ht; simpl; [|done].
    apply bool_decide_eq_true in Hs, Ht.
    intros [= <-] [Hlinks Hrels]. split; simpl; [done|].
    intros row' [Hin| ->%list_elem_of_singleton]%elem_of_app; auto.
Qed.

Lemma concept_scheme_stored_listed (db : DB) (s : ConceptScheme.t) :
  concept_scheme_stored db s →
  ∃ found,
    found ∈ get_concept_schemes db ∧
    ConceptScheme.iri found = ConceptScheme.iri s ∧
    ConceptScheme.notation found = ConceptScheme.notation s ∧
    ConceptScheme.scopeNote found = ConceptScheme.scopeNote s ∧
    ∀ lang,
      lang ≠ "null" ∨ ConceptScheme.prefLabels s !! None = None →
      ConceptScheme.to_dict found lang = ConceptScheme.to_dict s lang.
Proof.
  intros (row & Hrow & Hin).
  destruct (concept_scheme_row_fields _ _ Hrow) as (Hi & Hn & Hs & Hp).
  exists (load_concept_scheme row). split; [by apply list_elem_of_fmap_2|].
  unfold ConceptScheme.to_dict, load_concept_scheme.
  cbn [ConceptScheme.iri ConceptScheme.notation ConceptScheme.scopeNote
       ConceptScheme.prefLabels].
  rewrite Hi, Hn, Hs, Hp. split_and!; [done..|].
  intros lang Hlang. by rewrite get_in_language_stored.
Qed.

(** X12. After a successful save [get_concept_schemes] lists every scheme
    of the batch and every scheme a concept of the batch belongs to: for
    each there is a returned scheme with its IRI, notation and scope note
    that serialises to the same dictionary in every language other than
    "null" (in "null" as well when the scheme has no label without a
    language tag).  Every scheme it returned before is still returned. *)
Theorem save_then_get_concept_schemes (engine : DB)
    (concept_schemes : list ConceptScheme.t) (concepts : list Concept.t)
    (semantic_relations : list SemanticRelation.t) :
  let saved := save_dataset engine concept_schemes concepts semantic_relations in
  saved.2 = Ok () →
  (∀ s, s ∈ concept_schemes ∨ (∃ c, c ∈ concepts ∧ s ∈ Concept.concept_schemes c) →
     ∃ found,
       found ∈ get_concept_schemes saved.1 ∧
       ConceptScheme.iri found = ConceptScheme.iri s ∧
       ConceptScheme.notation found = ConceptScheme.notation s ∧
       ConceptScheme.scopeNote found = ConceptScheme.scopeNote s ∧
       ∀ lang,
         lang ≠ "null" ∨ ConceptScheme.prefLabels s !! None = None →
         ConceptScheme.to_dict found lang = ConceptScheme.to_dict s lang) ∧
  (∀ s, s ∈ get_concept_schemes engine → s ∈ get_concept_schemes saved.1).
Proof.
  intros saved Hok.
  destruct (save_dataset_spec engine concept_schemes concepts semantic_relations)
    as ((Hext & _) & _ & Hstored).
  fold saved in Hext, Hstored. rewrite Hok in Hstored.
  destruct Hstored as (Hschemes & Hconcepts & _).
  split.
  - intros s [Hs|(c & Hc & Hs)]; apply concept_scheme_stored_listed.
    + auto.
    + by apply (Hconcepts c Hc).
  - intros s (row & -> & Hrow)%list_elem_of_fmap.
    apply list_elem_of_fmap_2. by apply Hext.
Qed.

Lemma save_then_get_concept_schemes_witness :
  ∃ found,
    found ∈ get_concept_schemes sample.db ∧
    ConceptScheme.iri found = Some "urn:scheme" ∧
    ConceptScheme.to_dict found "fr" = ConceptScheme.to_dict sample.scheme "fr".
Proof.
  destruct (proj1 (save_then_get_concept_schemes empty_db
                     [sample.scheme; sample.other_scheme] [sample.concept] [] eq_refl)
              sample.scheme)
    as (found & Hfound & Hiri & _ & _ & Hdict).
  - left. left.
  - exists found. split_and!; [exact Hfound|exact Hiri|].
    apply Hdict. left. discriminate.
Defined.

Lemma empty_db_references_valid : references_valid empty_db.
Proof. split; intros row Hrow; simpl in Hrow; by apply elem_of_nil in Hrow. Qed.

(** X13. [save_dataset] keeps the primary keys unique and the foreign keys
    valid, whether it commits or raises. *)
Theorem save_dataset_keeps_constraints (engine : DB)
    (concept_schemes : list ConceptScheme.t) (concepts : list Concept.t)
    (semantic_relations : list SemanticRelation.t) :
  let saved := save_dataset engine concept_schemes concepts semantic_relations in
  keys_unique engine →
  references_valid engine →
  keys_unique saved.1 ∧ references_valid saved.1.
Proof.
  intros saved Hkeys Hrefs. split.
  - destruct (save_dataset_spec engine concept_schemes concepts semantic_relations)
      as (_ & Hkeys' & _).
    by apply Hkeys'.
  - by apply save_dataset_preserves_references.
Qed.

Lemma save_dataset_keeps_constraints_witness :
  keys_unique sample.db ∧ references_valid sample.db.
Proof.
  apply (save_dataset_keeps_constraints empty_db
           [sample.scheme; sample.other_scheme] [sample.concept] []).
  - unfold keys_unique. apply (bool_decide_unpack _). vm_compute. exact I.
  - split; intros row Hrow; simpl in Hrow; by apply elem_of_nil in Hrow.
Defined.

(** X14. On a state with unique keys and valid references, a relation
    [get_relations] returns for an IRI has that IRI as an endpoint, and
    [get_concept] finds a concept under each of its endpoints. *)
Theorem get_relations_endpoints_stored (engine : DB) (concept_iri : string)
    (r : SemanticRelation.t) :
  keys_unique engine →
  references_valid engine →
  r ∈ get_relations engine concept_iri →
  ∃ source target source_concept target_concept,
    SemanticRelation.source_concept_iri r = Some source ∧
    SemanticRelation.target_concept_iri r = Some target ∧
    (source = concept_iri ∨ target = concept_iri) ∧
    get_concept engine source = Ok (Some source_concept) ∧
    get_concept engine target = Ok (Some target_concept).
Proof.
  intros Hkeys [_ Hrefs] (row & -> & [Hmatch Hrow]%list_elem_of_filter)%list_elem_of_fmap.
  destruct (Hrefs row Hrow) as [(srow & Hs & Hsrow)%list_elem_of_fmap
                                 (trow & Ht & Htrow)%list_elem_of_fmap].
  exists (r_source_concept_iri row), (r_target_concept_iri row),
    (load_concept engine srow), (load_concept engine trow).
  split_and!; [done|done|done| |].
  - rewrite Hs. by apply get_concept_stored_row.
  - rewrite Ht. by apply get_concept_stored_row.
Qed.

Lemma get_concept_outcomes_keys (engine : DB) (concept_iri : string) :
  keys_unique engine → ∃ found, get_concept engine concept_iri = Ok found.
Proof.
  intros (_ & Hunique & _). unfold get_concept. simpl. rewrite where_eq_iri.
  destruct (filter_unique_key c_iri concept_iri _ Hunique)
    as [[-> _]|(row & -> & _)]; by eexists.
Qed.

(** X15. [get_concept] returns only a stored concept whose IRI is the one
    asked for, returns [None] only when no stored concept has that IRI,
    and raises only [MultipleResultsFound], only on a state whose keys are
    not unique. *)
Theorem get_concept_outcomes (engine : DB) (concept_iri : string) :
  match get_concept engine concept_iri with
  | Ok (Some concept) =>
      Concept.iri concept = Some concept_iri ∧
      ∃ row, row ∈ concepts engine ∧ concept = load_concept engine row
  | Ok None => ∀ row, row ∈ concepts engine → c_iri row ≠ concept_iri
  | Raise e => exc_type e = MultipleResultsFound ∧ ¬ keys_unique engine
  end.
Proof.
  unfold get_concept. simpl. rewrite where_eq_iri.
  destruct (filter _ (concepts engine)) as [|row [|row' rows]] eqn:Hfilter; simpl.
  - intros row Hrow Hkey.
    assert (row ∈ filter (fun r => c_iri r = concept_iri) (concepts engine)) as Hin
      by by apply list_elem_of_filter.
    rewrite Hfilter in Hin. by apply elem_of_nil in Hin.
  - assert (row ∈ filter (fun r => c_iri r = concept_iri) (concepts engine)) as Hin
      by (rewrite Hfilter; left).
    apply list_elem_of_filter in Hin as [Hkey Hrow].
    split; [by rewrite Hkey|by exists row].
  - split; [done|]. intros (_ & Hunique & _).
    destruct (filter_unique_key c_iri concept_iri _ Hunique)
      as [[Hnil _]|(x & Hone & _)]; rewrite Hfilter in *; done.
Qed.

Lemma references_valid_sample :
  references_valid
    (save_dataset sample.db [] [sample.other_concept] [sample.relation]).1.
Proof.
  split; intros row Hrow; apply list_elem_of_In in Hrow; vm_compute in Hrow;
    destruct Hrow as [<-|[]]; split; apply (bool_decide_unpack _); vm_compute;
    exact I.
Qed.

Lemma get_relations_endpoints_stored_witness :
  ∃ source_concept,
    get_concept (save_dataset sample.db [] [sample.other_concept] [sample.relation]).1
      "urn:a" = Ok (Some source_concept).
Proof.
  destruct (get_relations_endpoints_stored
              (save_dataset sample.db [] [sample.other_concept] [sample.relation]).1
              "urn:b" sample.relation)
    as (source & target & source_concept & _ & Hsource & _ & _ & Hfound & _).
  - unfold keys_unique. apply (bool_decide_unpack _). vm_compute. exact I.
  - apply references_valid_sample.
  - vm_compute. left.
  - exists source_concept. injection Hsource as <-. exact Hfound.
Defined.

(** *** Batches the constraints refuse *)

(** An object no state reached from [txn] accepts stops the run. *)
Lemma insert_all_rejects {A} (insert : A → DB → result DB) (stored : DB → A → Prop)
    (x : A) (objects : list A) (txn : DB) :
  inserts insert stored →
  x ∈ objects →
  (∀ db, extends txn db → ∃ e, insert x db = Raise e) →
  ∃ e, (insert_all insert objects txn).2 = Raise e.
Proof.
  intros Hins Hx. revert txn.
  induction objects as [|y objects IH]; intros txn Hdoomed;
    [by apply elem_of_nil in Hx|].
  simpl. destruct (insert y txn) as [txn'|e] eqn:Hy; simpl; [|by exists e].
  destruct (Hins _ _ _ Hy) as (Hext & _).
  apply elem_of_cons in Hx as [->|Hx].
  - destruct (Hdoomed txn) as [e He]; [done|]. congruence.
  - apply IH; [done|]. intros db Hdb. apply Hdoomed. by etrans.
Qed.

Lemma doomed_mono {A} (insert : A → DB → result DB) (txn txn' : DB) (x : A) :
  extends txn txn' → doomed insert txn x → doomed insert txn' x.
Proof. intros Hext Hdoomed db Hdb. apply Hdoomed. by etrans. Qed.

Lemma flush_rejects (session : Session) :
  (∃ s, s ∈ pending_schemes (new session) ∧
        doomed insert_concept_scheme (transaction session) s) ∨
  (∃ c, c ∈ pending_concepts (new session) ∧
        doomed insert_concept (transaction session) c) ∨
  (∃ r, r ∈ pending_relations (new session) ∧
        doomed insert_semantic_relation (transaction session) r) →
  ∃ e, (flush session).2 = Raise e.
Proof.
  intros Hdoomed. unfold flush.
  pose proof (insert_all_spec insert_concept_scheme concept_scheme_stored
                (pending_schemes (new session)) (transaction session)
                insert_concept_scheme_inserts concept_scheme_stored_mono)
    as (E1 & _).
  pose proof (insert_all_rejects insert_concept_scheme concept_scheme_stored)
    as R1.
  destruct (insert_all insert_concept_scheme _ _) as [t1 [[]|e1]] eqn:H1;
    simpl in *; [|by exists e1].
  destruct Hdoomed as [(s & Hs & Hd)|Hdoomed].
  { destruct (R1 s (pending_schemes (new session)) (transaction session))
      as [e He]; [apply insert_concept_scheme_inserts|done|done|].
    rewrite H1 in He. done. }
  pose proof (insert_all_spec insert_concept concept_stored
                (pending_concepts (new session)) t1
                insert_concept_inserts concept_stored_mono) as (E2 & _).
  pose proof (insert_all_rejects insert_concept concept_stored) as R2.
  destruct (insert_all insert_concept _ _) as [t2 [[]|e2]] eqn:H2;
    simpl in *; [|by exists e2].
  destruct Hdoomed as [(c & Hc & Hd)|(r & Hr & Hd)].
  { destruct (R2 c (pending_concepts (new session)) t1)
      as [e He]; [apply insert_concept_inserts|done|by eapply doomed_mono|].
    rewrite H2 in He. done. }
  pose proof (insert_all_spec insert_in_scheme in_scheme_stored
                (pending_concepts (new session) ≫= links) t2
                insert_in_scheme_inserts in_scheme_stored_mono) as (E3 & _).
  destruct (insert_all insert_in_scheme _ _) as [t3 [[]|e3]] eqn:H3;
    simpl in *; [|by exists e3].
  destruct (insert_all_rejects insert_semantic_relation semantic_relation_stored
              r (pending_relations (new session)) t3)
    as [e He]; [apply insert_semantic_relation_inserts|done| |by exists e].
  eapply doomed_mono; [|done]. by do 2 etrans.
Qed.

Lemma doomed_scheme (engine : DB) (s : ConceptScheme.t) :
  ConceptScheme.iri s = None ∨
  (∃ iri, ConceptScheme.iri s = Some iri ∧ iri ∈ cs_iri <$> concept_schemes engine) →
  doomed insert_concept_scheme engine s.
Proof.
  intros Hkey db (Hsub & _). unfold insert_concept_scheme.
  destruct (concept_scheme_row s) as [row|e] eqn:Hrow; simpl; [|by exists e].
  destruct (concept_scheme_row_fields _ _ Hrow) as [Hiri _].
  destruct Hkey as [Hnone|(iri & Hsome & (row' & -> & Hin)%list_elem_of_fmap)];
    [congruence|].
  rewrite bool_decide_eq_true_2; [by eexists|].
  rewrite Hiri in Hsome. injection Hsome as ->.
  apply list_elem_of_fmap_2. by apply Hsub.
Qed.

Lemma doomed_concept (engine : DB) (c : Concept.t) :
  Concept.iri c = None ∨
  (∃ iri, Concept.iri c = Some iri ∧ iri ∈ c_iri <$> concepts engine) →
  doomed insert_concept engine c.
Proof.
  intros Hkey db (_ & Hsub & _). unfold insert_concept.
  destruct (concept_row c) as [row|e] eqn:Hrow; simpl; [|by exists e].
  destruct (concept_row_fields _ _ Hrow) as [Hiri _].
  destruct Hkey as [Hnone|(iri & Hsome & (row' & -> & Hin)%list_elem_of_fmap)];
    [congruence|].
  rewrite bool_decide_eq_true_2; [by eexists|].
  rewrite Hiri in Hsome. injection Hsome as ->.
  apply list_elem_of_fmap_2. by apply Hsub.
Qed.

Lemma doomed_relation (engine : DB) (r : SemanticRelation.t) :
  SemanticRelation.source_concept_iri r = None ∨
  SemanticRelation.target_concept_iri r = None ∨
  (∃ source target,
     SemanticRelation.source_concept_iri r = Some source ∧
     SemanticRelation.target_concept_iri r = Some target ∧
     (source, target) ∈ endpoints <$> semantic_relations engine) →
  doomed insert_semantic_relation engine r.
Proof.
  intros Hkey db (_ & _ & _ & Hsub). unfold insert_semantic_relation.
  destruct (semantic_relation_row r) as [row|e] eqn:Hrow; simpl; [|by exists e].
  destruct (semantic_relation_row_load _ _ Hrow) as (_ & Hsrc & Htgt).
  destruct Hkey as [Hnone|[Hnone|(source & target & Hs & Ht &
                                   (row' & Heq & Hin)%list_elem_of_fmap)]];
    [congruence|congruence|].
  rewrite bool_decide_eq_true_2; [by eexists|].
  rewrite Hsrc in Hs. rewrite Htgt in Ht. injection Hs as <-. injection Ht as <-.
  unfold endpoints at 1. rewrite Heq. apply list_elem_of_fmap_2. by apply Hsub.
Qed.

(** A batch with an object the starting state already refuses is not
    saved. *)
Lemma save_dataset_rejects (engine : DB)
    (concept_schemes : list ConceptScheme.t) (concepts : list Concept.t)
    (semantic_relations : list SemanticRelation.t) :
  (∃ s, s ∈ concept_schemes ∧ doomed insert_concept_scheme engine s) ∨
  (∃ c, c ∈ concepts ∧ doomed insert_concept engine c) ∨
  (∃ r, r ∈ semantic_relations ∧ doomed insert_semantic_relation engine r) →
  ∃ e, save_dataset engine concept_schemes concepts semantic_relations
       = (engine, Raise e).
Proof.
  intros Hdoomed.
  pose proof (save_dataset_spec engine concept_schemes concepts semantic_relations)
    as (_ & _ & Hsaved). simpl in Hsaved. revert Hsaved.
  unfold save_dataset.
  set (s1 := add_all (Session_open engine) (RScheme <$> concept_schemes)).
  set (s2 := add_all s1 (RConcept <$> concepts)).
  set (s3 := add_all s2 (RRelation <$> semantic_relations)).
  destruct (add_all_spec (RScheme <$> concept_schemes) (Session_open engine))
    as (_ & T1 & _ & O1 & _).
  destruct (add_all_spec (RConcept <$> concepts) s1) as (_ & T2 & N2 & O2 & _).
  destruct (add_all_spec (RRelation <$> semantic_relations) s2)
    as (_ & T3 & N3 & O3 & _).
  fold s1 in T1, O1. fold s2 in T2, N2, O2. fold s3 in T3, N3, O3.
  assert (transaction s3 = engine) as Htransaction by by rewrite T3, T2, T1.
  destruct (flush_rejects s3) as [e He].
  { rewrite Htransaction.
    destruct Hdoomed as [(s & Hs & Hd)|[(c & Hc & Hd)|(r & Hr & Hd)]].
    - left. exists s. split; [|done]. apply elem_of_pending_schemes.
      apply N3, N2, O1. by apply list_elem_of_fmap_2.
    - right. left. exists c. split; [|done]. apply elem_of_pending_concepts.
      apply N3, O2. by apply list_elem_of_fmap_2.
    - right. right. exists r. split; [|done]. apply elem_of_pending_relations.
      apply O3. by apply list_elem_of_fmap_2. }
  unfold commit. destruct (flush s3) as [session outcome]. simpl in He. subst outcome.
  simpl. intros ->. by exists e.
Qed.

(** X16. A batch of new records with a scheme or a concept that has no
    IRI or an IRI already stored, or with a relation that lacks an endpoint or whose
    pair of endpoints is already stored, is refused: [save_dataset] raises
    and the stored state is unchanged. *)
Theorem save_dataset_rejects_stored_keys (engine : DB)
    (concept_schemes : list ConceptScheme.t) (concepts : list Concept.t)
    (semantic_relations : list SemanticRelation.t) :
  (∃ s, s ∈ concept_schemes ∧
        (ConceptScheme.iri s = None ∨
         ∃ iri, ConceptScheme.iri s = Some iri ∧
                iri ∈ cs_iri <$> database.concept_schemes engine)) ∨
  (∃ c, c ∈ concepts ∧
        (Concept.iri c = None ∨
         ∃ iri, Concept.iri c = Some iri ∧ iri ∈ c_iri <$> database.concepts engine)) ∨
  (∃ r, r ∈ semantic_relations ∧
        (SemanticRelation.source_concept_iri r = None ∨
         SemanticRelation.target_concept_iri r = None ∨
         ∃ source target,
           SemanticRelation.source_concept_iri r = Some source ∧
           SemanticRelation.target_concept_iri r = Some target ∧
           (source, target) ∈ endpoints <$> database.semantic_relations engine)) →
  ∃ e, save_dataset engine concept_schemes concepts semantic_relations
       = (engine, Raise e).
Proof.
  intros [(s & Hs & Hkey)|[(c & Hc & Hkey)|(r & Hr & Hkey)]];
    apply save_dataset_rejects.
  - left. exists s. split; [done|]. by apply doomed_scheme.
  - right. left. exists c. split; [done|]. by apply doomed_concept.
  - right. right. exists r. split; [done|]. by apply doomed_relation.
Qed.

Lemma save_dataset_rejects_stored_keys_witness :
  ∃ e, save_dataset sample.db [sample.new_scheme; sample.scheme] [] []
       = (sample.db, Raise e).
Proof.
  apply save_dataset_rejects_stored_keys. left. exists sample.scheme. split.
  - right. left.
  - right. exists "urn:scheme". split; [reflexivity|]. vm_compute. left.
Defined.

(** X17. Once a batch that is not empty has been saved, saving new records
    with the same contents raises and leaves the stored state unchanged. *)
Theorem save_dataset_not_repeatable (engine : DB)
    (concept_schemes : list ConceptScheme.t) (concepts : list Concept.t)
    (semantic_relations : list SemanticRelation.t) :
  let saved := save_dataset engine concept_schemes concepts semantic_relations in
  saved.2 = Ok () →
  concept_schemes ≠ [] ∨ concepts ≠ [] ∨ semantic_relations ≠ [] →
  ∃ e, save_dataset saved.1 concept_schemes concepts semantic_relations
       = (saved.1, Raise e).
Proof.
  intros saved Hok Hnonempty.
  destruct (save_dataset_spec engine concept_schemes concepts semantic_relations)
    as (_ & _ & Hstored).
  fold saved in Hstored. rewrite Hok in Hstored.
  destruct Hstored as (Hschemes & Hconcepts & Hrelations).
  apply save_dataset_rejects.
  destruct Hnonempty as [Hne|[Hne|Hne]].
  - destruct concept_schemes as [|s l]; [done|]. left. exists s. split; [left|].
    destruct (Hschemes s) as (row & Hrow & Hin); [left|].
    destruct (concept_scheme_row_fields _ _ Hrow) as [Hiri _].
    apply doomed_scheme. right. exists (cs_iri row). split; [done|].
    by apply list_elem_of_fmap_2.
  - destruct concepts as [|c l]; [done|]. right. left. exists c. split; [left|].
    destruct (Hconcepts c) as [(row & Hrow & Hin) _]; [left|].
    destruct (concept_row_fields _ _ Hrow) as [Hiri _].
    apply doomed_concept. right. exists (c_iri row). split; [done|].
    by apply list_elem_of_fmap_2.
  - destruct semantic_relations as [|r l]; [done|]. right. right.
    exists r. split; [left|].
    destruct (Hrelations r) as (row & Hrow & Hin); [left|].
    destruct (semantic_relation_row_load _ _ Hrow) as (_ & Hsrc & Htgt).
    apply doomed_relation. right. right.
    exists (r_source_concept_iri row), (r_target_concept_iri row).
    split_and!; [done|done|]. by apply (list_elem_of_fmap_2 endpoints).
Qed.

Lemma save_dataset_not_repeatable_witness :
  ∃ e, save_dataset sample.db [sample.scheme; sample.other_scheme] [sample.concept] []
       = (sample.db, Raise e).
Proof.
  apply (save_dataset_not_repeatable empty_db [sample.scheme; sample.other_scheme]
           [sample.concept] []).
  - reflexivity.
  - left. discriminate.
Defined.

(** X18. The controller's [get_concept_schemes] returns one dictionary per
    stored scheme, in the stored order, with the stored [iri], [notation]
    and [scopeNote] and the stored labels localised to the language: the
    label stored under the language, else the one stored under "en", else
    the empty string. *)
Theorem get_concept_schemes_lists_stored (engine : DB) (lang : string) :
  Forall2 (fun row d =>
             d !! "iri" = Some (Some (cs_iri row)) ∧
             d !! "notation" = Some (Some (cs_notation row)) ∧
             d !! "scopeNote" = Some (Some (cs_scopeNote row)) ∧
             d !! "prefLabel"
             = Some (default (default (Some "") (cs_prefLabels row !! "en"))
                             (cs_prefLabels row !! lang)))
          (database.concept_schemes engine)
          (controllers.get_concept_schemes engine lang).
Proof.
  unfold controllers.get_concept_schemes, get_concept_schemes.
  rewrite <-list_fmap_compose. apply Forall2_fmap_r, Forall_Forall2_diag.
  apply Forall_forall. intros row _. simpl.
  destruct (ConceptScheme_to_dict_spec (load_concept_scheme row) lang)
    as (_ & ? & ? & ? & Hlabel).
  split_and!; [done..|]. rewrite Hlabel. unfold Base.get_in_language, load_concept_scheme.
  cbn [ConceptScheme.prefLabels].
  by rewrite !dict_get_lookup, !(proj2 (from_jsonb_lookup _)).
Qed.

End stored_state.

(** ** The controller *)

Lemma mapM_Forall2 {A B} (f : A → result B) (l : list A) :
  (∀ x, x ∈ l → ∃ y, f x = Ok y) →
  ∃ k, mapM f l = Ok k ∧ Forall2 (fun x y => f x = Ok y) l k.
Proof.
  induction l as [|x l IH]; intros Hf.
  - exists []. by split.
  - destruct (Hf x) as [y Hy]; [left|].
    destruct IH as (k & Hk & Hall); [intros; apply Hf; by right|].
    exists (y :: k). simpl. rewrite Hy. simpl. rewrite Hk. simpl.
    split; [done|by constructor].
Qed.

Section controller.

Import controllers.
Context `{Externals}.
Variable data_dir : Path.t.
Variable reload : bool.
Open Scope list_scope.

(** X19. On a readable, well-formed document that declares [core], has no
    concept element and whose scheme elements declare [rdf] and [core],
    [parse_dataset] returns no concept, no relation and one scheme per
    scheme element, in document order, each parsed by
    [ConceptScheme.from_xml_element]. *)
Theorem parse_dataset_schemes_only (files : gmap string string)
    (dataset_path content : string) (root : Element) (core : string) :
  files !! dataset_path = Some content →
  parse_xml content = Ok root →
  nsmap root !! "core" = Some core →
  sub_elements root core "Concept" = [] →
  (∀ e, e ∈ sub_elements root core "ConceptScheme" →
        is_Some (nsmap e !! "rdf") ∧ is_Some (nsmap e !! "core")) →
  ∃ schemes,
    parse_dataset files dataset_path
    = Ok {| concept_schemes := schemes; concepts := []; semantic_relations := [] |} ∧
    Forall2 (fun e s => ConceptScheme.from_xml_element e = Ok s)
            (sub_elements root core "ConceptScheme") schemes.
Proof.
  intros Hfile Hparse Hcore Hconcepts Hprefixes. unfold parse_dataset.
  rewrite Hfile. simpl. rewrite Hparse. simpl.
  rewrite !(findall_Ok _ _ core) by done. simpl.
  destruct (mapM_Forall2 ConceptScheme.from_xml_element
              (sub_elements root core "ConceptScheme")) as (schemes & -> & Hall).
  { intros e [[rdf Hrdf] [core' Hcore']]%Hprefixes.
    eexists. by apply (ConceptScheme_from_xml_element_Ok e rdf core'). }
  exists schemes. simpl. rewrite Hconcepts. simpl. by split.
Qed.

(** X20. [parse_dataset] raises [OSError] when the file is not there, the
    parser's own error when the content is malformed, and [SyntaxError]
    when the root does not declare [core]. *)
Theorem parse_dataset_errors (files : gmap string string) (dataset_path : string) :
  (files !! dataset_path = None →
   ∃ e, parse_dataset files dataset_path = Raise e ∧ exc_type e = OSError) ∧
  (∀ content e,
     files !! dataset_path = Some content →
     parse_xml content = Raise e →
     parse_dataset files dataset_path = Raise e) ∧
  (∀ content root,
     files !! dataset_path = Some content →
     parse_xml content = Ok root →
     nsmap root !! "core" = None →
     parse_dataset files dataset_path
     = Raise (mkException SyntaxError "prefix 'core' not found in prefix map")).
Proof.
  unfold parse_dataset. split_and!.
  - intros ->. by eexists.
  - intros content e Hfile Hparse. rewrite Hfile. simpl. by rewrite Hparse.
  - intros content root Hfile Hparse Hcore. rewrite Hfile. simpl. rewrite Hparse. simpl.
    by rewrite (findall_missing_prefix _ "core" "ConceptScheme").
Qed.

(** X21. What [init_datasets] returns and leaves behind does not depend on
    what the database held before the run. *)
Theorem init_datasets_discards_stored_state
    (datasets : list (string * string)) (world : World)
    (database' : option database.DB) :
  init_datasets_of data_dir datasets reload world
  = init_datasets_of data_dir datasets reload
      {| environ := environ world; database := database'; files := files world |}.
Proof.
  unfold init_datasets_of, database.init_engine. simpl.
  destruct (environ world !! "DATABASE_URL") as [[|a url]|]; [done| |done].
  by destruct (database world), database'.
Qed.

Lemma try_dataset_files (engine : database.DB) (files : gmap string string)
    (dataset_file dataset_url path : string) :
  path ≠ path_join data_dir dataset_file →
  (try_dataset data_dir reload engine files dataset_file dataset_url).1.2 !! path
  = files !! path.
Proof.
  intros Hpath. unfold try_dataset.
  destruct (load dataset_url reload files) as [ontology|e]; simpl; [|done].
  destruct (rdfxml ontology) as [content|e]; simpl; [|done].
  destruct (parse_dataset _ _) as [parsed|e]; simpl.
  - destruct (database.save_dataset _ _ _ _) as [engine' outcome]; simpl.
    by rewrite lookup_insert_ne.
  - by rewrite lookup_insert_ne.
Qed.

(** The entries the loop appends are built from the datasets it runs
    over, and it writes no file but theirs. *)
Lemma init_datasets_loop_entries (datasets : list (string * string)) (st : Loop) :
  let st' := init_datasets_loop data_dir reload datasets st in
  (∀ entry, entry ∈ saved_datasets st' →
            entry ∈ saved_datasets st ∨
            ∃ dataset, dataset ∈ datasets ∧ entry = saved_entry dataset.1 dataset.2) ∧
  (∀ entry, entry ∈ failed_datasets st' →
            entry ∈ failed_datasets st ∨
            ∃ dataset error, dataset ∈ datasets ∧
                             entry = failed_entry dataset.1 dataset.2 error) ∧
  (∀ path, (∀ dataset, dataset ∈ datasets → path ≠ path_join data_dir dataset.1) →
           data_dir_files st' !! path = data_dir_files st !! path).
Proof.
  unfold init_datasets_loop. revert st.
  induction datasets as [|[dataset_file dataset_url] datasets IH]; intros st; simpl.
  - split_and!; auto.
  - destruct (IH (init_dataset data_dir reload st (dataset_file, dataset_url)))
      as (Hs & Hf & Hfiles).
    pose proof (init_dataset_spec data_dir reload st dataset_file dataset_url) as Hspec.
    cbv zeta in Hspec. destruct Hspec as (_ & Hwritten & Hlists).
    split_and!.
    + intros entry [Hin|(dataset & Hin & ->)]%Hs.
      * destruct ((try_dataset _ _ _ _ _ _).2) as [[]|error];
          destruct Hlists as [Hsaved Hfailed]; rewrite Hsaved in Hin; [|by left].
        apply elem_of_app in Hin as [Hin| ->%list_elem_of_singleton]; [by left|].
        right. exists (dataset_file, dataset_url). split; [left|done].
      * right. exists dataset. split; [by right|done].
    + intros entry [Hin|(dataset & error & Hin & ->)]%Hf.
      * destruct ((try_dataset _ _ _ _ _ _).2) as [[]|error];
          destruct Hlists as [Hsaved Hfailed]; rewrite Hfailed in Hin; [by left|].
        apply elem_of_app in Hin as [Hin| ->%list_elem_of_singleton]; [by left|].
        right. exists (dataset_file, dataset_url), error. split; [left|done].
      * right. exists dataset, error. split; [by right|done].
    + intros path Hpath. rewrite Hfiles by (intros; apply Hpath; by right).
      rewrite Hwritten. apply try_dataset_files. apply (Hpath (dataset_file, dataset_url)).
      left.
Qed.


Lemma try_dataset_written (engine : database.DB) (files : gmap string string)
    (dataset_file dataset_url : string) :
  let attempt := try_dataset data_dir reload engine files dataset_file dataset_url in
  (∀ path, is_Some (files !! path) → is_Some (attempt.1.2 !! path)) ∧
  (attempt.2 = Ok () → is_Some (attempt.1.2 !! path_join data_dir dataset_file)).
Proof.
  assert (∀ content path,
            is_Some (files !! path) →
            is_Some (<[path_join data_dir dataset_file := content]> files !! path))
    as Hkept.
  { intros content path Hpath. rewrite lookup_insert. by case_decide. }
  unfold try_dataset.
  destruct (load dataset_url reload files) as [ontology|e]; simpl; [|done].
  destruct (rdfxml ontology) as [content|e]; simpl; [|done].
  destruct (parse_dataset _ _) as [parsed|e]; simpl; [|by split; [apply Hkept|]].
  destruct (database.save_dataset _ _ _ _) as [engine' outcome]; simpl.
  split; [apply Hkept|]. intros _. by rewrite lookup_insert_eq.
Qed.

(** The loop removes no file, and a dataset it puts in the saved list has
    its file. *)
Lemma init_datasets_loop_files (datasets : list (string * string)) (st : Loop) :
  let st' := init_datasets_loop data_dir reload datasets st in
  (∀ path, is_Some (data_dir_files st !! path) → is_Some (data_dir_files st' !! path)) ∧
  (∀ entry, entry ∈ saved_datasets st' →
     entry ∈ saved_datasets st ∨
     ∃ dataset_file,
       entry !! "dataset" = Some dataset_file ∧
       dataset_file ∈ datasets.*1 ∧
       is_Some (data_dir_files st' !! path_join data_dir dataset_file)).
Proof.
  unfold init_datasets_loop. revert st.
  induction datasets as [|[dataset_file dataset_url] datasets IH]; intros st; simpl.
  - split; [done|]. by left.
  - destruct (IH (init_dataset data_dir reload st (dataset_file, dataset_url)))
      as (Hkept & Hsaved).
    pose proof (init_dataset_spec data_dir reload st dataset_file dataset_url) as Hspec.
    pose proof (try_dataset_written (engine st) (data_dir_files st)
                  dataset_file dataset_url) as Hwritten.
    cbv zeta in Hspec, Hwritten.
    destruct Hspec as (_ & Hfiles & Hlists). destruct Hwritten as [Hmono Hfile].
    rewrite <-Hfiles in Hmono, Hfile.
    split; [by auto|].
    intros entry [Hin|(name & Hname & Hnames & Hpath)]%Hsaved.
    + destruct ((try_dataset _ _ _ _ _ _).2) as [[]|error];
        destruct Hlists as [Hs _]; rewrite Hs in Hin; [|by left].
      apply elem_of_app in Hin as [Hin| ->%list_elem_of_singleton]; [by left|].
      right. exists dataset_file. split_and!; [done|by left|by auto].
    + right. exists name. split_and!; [done|by right|done].
Qed.

(** X23. [init_datasets] leaves the environment as it is and removes no
    file.  The only names it writes under are those of its datasets,
    [str(self.data_dir / dataset_file)], and every dataset of the saved
    list has its file under that name when the run ends. *)
Theorem init_datasets_files (datasets : list (string * string)) (world : World)
    (saved failed : list (gmap string string)) (world' : World) :
  init_datasets_of data_dir datasets reload world = Ok (saved, failed, world') →
  environ world' = environ world ∧
  (∀ path, (∀ dataset, dataset ∈ datasets → path ≠ path_join data_dir dataset.1) →
           files world' !! path = files world !! path) ∧
  (∀ path, is_Some (files world !! path) → is_Some (files world' !! path)) ∧
  (∀ entry, entry ∈ saved →
     ∃ dataset_file,
       entry !! "dataset" = Some dataset_file ∧
       dataset_file ∈ datasets.*1 ∧
       is_Some (files world' !! path_join data_dir dataset_file)).
Proof.
  unfold init_datasets_of.
  destruct (database.init_engine _ _ _ _) as [initial|e]; simpl; [|done].
  intros [= <- _ <-]. simpl.
  destruct (init_datasets_loop_entries datasets
              {| saved_datasets := []; failed_datasets := [];
                 engine := initial; data_dir_files := files world |})
    as (_ & _ & Hframe).
  destruct (init_datasets_loop_files datasets
              {| saved_datasets := []; failed_datasets := [];
                 engine := initial; data_dir_files := files world |})
    as (Hkept & Hsaved).
  split_and!; [done|done|done|].
  intros entry [Hin|?]%Hsaved; [by apply elem_of_nil in Hin|done].
Qed.

(** X24. A controller that could be constructed keeps the environment, the
    files and the stored tables (empty ones for a database that did not
    exist), and [init_datasets] on what it leaves returns its two lists. *)
Theorem constructed_controller_ingests (world ready : World)
    (datasets : list (string * string)) :
  __init__ world = Ok ready →
  environ ready = environ world ∧
  files ready = files world ∧
  (∀ stored, database world = Some stored → database ready = Some stored) ∧
  (database world = None → database ready = Some database.empty_db) ∧
  ∃ saved failed world',
    init_datasets_of data_dir datasets reload ready = Ok (saved, failed, world').
Proof.
  unfold __init__, init_datasets_of, database.init_engine. simpl.
  destruct (environ world !! "DATABASE_URL") as [[|a url]|] eqn:Hurl; [done| |done].
  simpl. intros [= <-]. simpl. rewrite Hurl. simpl.
  split_and!; [done|done| | |by do 3 eexists].
  - by intros stored ->.
  - by intros ->.
Qed.

Lemma try_dataset_constraints (engine : database.DB) (files : gmap string string)
    (dataset_file dataset_url : string) :
  database.keys_unique engine ∧ database.references_valid engine →
  database.keys_unique
    (try_dataset data_dir reload engine files dataset_file dataset_url).1.1 ∧
  database.references_valid
    (try_dataset data_dir reload engine files dataset_file dataset_url).1.1.
Proof.
  intros [Hkeys Hrefs]. unfold try_dataset.
  destruct (load dataset_url reload files) as [ontology|e]; simpl; [|done].
  destruct (rdfxml ontology) as [content|e]; simpl; [|done].
  destruct (parse_dataset _ _) as [parsed|e]; simpl; [|done].
  pose proof (save_dataset_spec engine (concept_schemes parsed) (concepts parsed)
                (semantic_relations parsed)) as (_ & Hkeys' & _).
  pose proof (save_dataset_preserves_references engine (concept_schemes parsed)
                (concepts parsed) (semantic_relations parsed) Hrefs) as Hrefs'.
  destruct (database.save_dataset _ _ _ _) as [engine' outcome]; simpl in *. auto.
Qed.

(** X25. The state a run of [init_datasets] leaves has unique keys and
    valid references, so [get_concept] on it never raises. *)
Theorem init_datasets_leaves_consistent_state
    (datasets : list (string * string)) (world : World)
    (saved failed : list (gmap string string)) (world' : World) :
  init_datasets_of data_dir datasets reload world = Ok (saved, failed, world') →
  ∃ stored,
    database world' = Some stored ∧
    database.keys_unique stored ∧
    database.references_valid stored ∧
    ∀ concept_iri, ∃ found, database.get_concept stored concept_iri = Ok found.
Proof.
  unfold init_datasets_of.
  destruct (database.init_engine _ _ _ _) as [initial|e] eqn:Hinit; simpl; [|done].
  apply init_engine_drops in Hinit as ->. intros [= _ _ <-]. simpl.
  eexists. split; [done|].
  assert (∀ st,
            database.keys_unique (engine st) ∧ database.references_valid (engine st) →
            database.keys_unique
              (engine (init_datasets_loop data_dir reload datasets st)) ∧
            database.references_valid
              (engine (init_datasets_loop data_dir reload datasets st))) as Hloop.
  { unfold init_datasets_loop.
    induction datasets as [|[dataset_file dataset_url] l IH]; intros st Hst;
      simpl; [done|].
    apply IH.
    pose proof (init_dataset_spec data_dir reload st dataset_file dataset_url) as Hspec.
    cbv zeta in Hspec. destruct Hspec as (Hengine & _).
    pose proof (try_dataset_constraints (engine st) (data_dir_files st)
                  dataset_file dataset_url Hst) as Hkept.
    rewrite <-Hengine in Hkept. exact Hkept. }
  destruct (Hloop {| saved_datasets := []; failed_datasets := [];
                     engine := database.empty_db;
                     data_dir_files := files world |}) as [Hkeys Hrefs].
  { split; [apply empty_db_keys_unique|apply empty_db_references_valid]. }
  split_and!; [done|done|].
  intros concept_iri.
  pose proof (get_concept_outcomes_keys _ concept_iri Hkeys) as Hfound. done.
Qed.

(** X26. With the database configured, a run in which no dataset can be
    loaded returns an empty saved list and one failed entry per dataset,
    in order, writes no file, and leaves the tables empty. *)
Theorem init_datasets_when_no_load_succeeds
    (datasets : list (string * string)) (world : World) (url : string)
    (error : string → Exception) :
  environ world !! "DATABASE_URL" = Some url →
  url ≠ ""%string →
  (∀ dataset, dataset ∈ datasets →
              load dataset.2 reload (files world) = Raise (error dataset.1)) →
  init_datasets_of data_dir datasets reload world
  = Ok ([],
        (fun dataset => failed_entry dataset.1 dataset.2 (error dataset.1)) <$> datasets,
        {| environ := environ world;
           database := Some database.empty_db;
           files := files world |}).
Proof.
  intros Hurl Hne Hload. unfold init_datasets_of.
  rewrite (init_engine_configured _ _ url) by done. simpl.
  assert (∀ st, data_dir_files st = files world →
            init_datasets_loop data_dir reload datasets st
            = {| saved_datasets := saved_datasets st;
                 failed_datasets :=
                   failed_datasets st ++
                   ((fun dataset => failed_entry dataset.1 dataset.2 (error dataset.1))
                      <$> datasets);
                 engine := engine st;
                 data_dir_files := data_dir_files st |}) as Hloop.
  { unfold init_datasets_loop.
    induction datasets as [|[dataset_file dataset_url] l IH]; intros st Hfiles.
    - simpl. rewrite app_nil_r. by destruct st.
    - change (foldl (init_dataset data_dir reload) st ((dataset_file, dataset_url) :: l))
        with (foldl (init_dataset data_dir reload)
                (init_dataset data_dir reload st (dataset_file, dataset_url)) l).
      assert (init_dataset data_dir reload st (dataset_file, dataset_url)
              = {| saved_datasets := saved_datasets st;
                   failed_datasets :=
                     failed_datasets st ++
                     [failed_entry dataset_file dataset_url (error dataset_file)];
                   engine := engine st;
                   data_dir_files := data_dir_files st |}) as ->.
      { pose proof (Hload (dataset_file, dataset_url)) as Hfails. simpl in Hfails.
        unfold init_dataset, try_dataset. by rewrite Hfiles, Hfails by left. }
      rewrite IH; [|intros; apply Hload; by right|done].
      simpl. by rewrite <-app_assoc. }
  by rewrite Hloop.
Qed.

End controller.

Lemma parse_dataset_schemes_only_witness :
  ∃ schemes,
    @controllers.parse_dataset sample.externals
      (<["data/schemes.rdf" := "schemes"]> ∅) "data/schemes.rdf"
    = Ok {| controllers.concept_schemes := schemes;
            controllers.concepts := [];
            controllers.semantic_relations := [] |} ∧
    Forall2 (fun e s => ConceptScheme.from_xml_element e = Ok s)
            (sub_elements sample.schemes_root sample.core "ConceptScheme") schemes.
Proof.
  apply (@parse_dataset_schemes_only sample.externals
           (<["data/schemes.rdf" := "schemes"]> ∅) "data/schemes.rdf" "schemes"
           sample.schemes_root sample.core).
  - vm_compute. reflexivity.
  - vm_compute. reflexivity.
  - vm_compute. reflexivity.
  - vm_compute. reflexivity.
  - apply Forall_forall. apply (bool_decide_unpack _). vm_compute. exact I.
Defined.

Lemma parse_dataset_errors_witness :
  ∃ e, @controllers.parse_dataset sample.externals sample.files "data/sample.rdf.bak"
       = Raise e ∧ exc_type e = OSError.
Proof.
  apply (proj1 (@parse_dataset_errors sample.externals sample.files
                  "data/sample.rdf.bak")).
  reflexivity.
Defined.


Lemma init_datasets_files_witness :
  ∃ saved failed world',
    @controllers.init_datasets_of sample.externals (Path.Path ".")
      (take 1 controllers.datasets) false sample.world
    = Ok (saved, failed, world') ∧
    controllers.environ world' = controllers.environ sample.world ∧
    is_Some (controllers.files world' !! "ESTAT-CN2024.rdf").
Proof.
  pose (run := @controllers.init_datasets_of sample.externals (Path.Path ".")
                 (take 1 controllers.datasets) false sample.world).
  pose (saved := match run with Ok r => r.1.1 | Raise _ => [] end).
  pose (failed := match run with Ok r => r.1.2 | Raise _ => [] end).
  pose (world' := match run with Ok r => r.2 | Raise _ => sample.world end).
  assert (run = Ok (saved, failed, world')) as Hrun by (vm_compute; reflexivity).
  destruct (@init_datasets_files sample.externals (Path.Path ".") false
              (take 1 controllers.datasets) sample.world saved failed world' Hrun)
    as (Henviron & _ & _ & Hsaved).
  exists saved, failed, world'. split_and!; [exact Hrun|exact Henviron|].
  destruct (Hsaved (controllers.saved_entry "ESTAT-CN2024.rdf"
                      (controllers.base_url
                       ++ "combined-nomenclature-2024/20240425-0/rdf/skos_core/ESTAT-CN2024.rdf")))
    as (dataset_file & Hname & _ & Hfile).
  - vm_compute. left.
  - vm_compute in Hname. injection Hname as <-.
    assert (controllers.path_join (Path.Path ".") "ESTAT-CN2024.rdf"
            = "ESTAT-CN2024.rdf") as Hpath by (vm_compute; reflexivity).
    rewrite Hpath in Hfile. exact Hfile.
Defined.

Lemma constructed_controller_ingests_witness :
  ∃ saved failed world',
    @controllers.init_datasets_of sample.externals (Path.Path "data") controllers.datasets false
      {| controllers.environ := controllers.environ sample.world;
         controllers.database := Some database.empty_db;
         controllers.files := ∅ |}
    = Ok (saved, failed, world').
Proof.
  apply (@constructed_controller_ingests sample.externals (Path.Path "data") false sample.world
           {| controllers.environ := controllers.environ sample.world;
              controllers.database := Some database.empty_db;
              controllers.files := ∅ |} controllers.datasets).
  reflexivity.
Defined.

Lemma init_datasets_leaves_consistent_state_witness :
  ∃ saved failed world' stored,
    @controllers.init_datasets_of sample.externals (Path.Path "data")
      (take 2 controllers.datasets) false sample.world
    = Ok (saved, failed, world') ∧
    controllers.database world' = Some stored ∧
    database.cs_iri <$> database.concept_schemes stored = ["urn:scheme"; "urn:other"] ∧
    database.keys_unique stored ∧
    database.references_valid stored ∧
    ∀ concept_iri, ∃ found, database.get_concept stored concept_iri = Ok found.
Proof.
  pose (run := @controllers.init_datasets_of sample.externals (Path.Path "data")
                 (take 2 controllers.datasets) false sample.world).
  pose (saved := match run with Ok r => r.1.1 | Raise _ => [] end).
  pose (failed := match run with Ok r => r.1.2 | Raise _ => [] end).
  pose (world' := match run with Ok r => r.2 | Raise _ => sample.world end).
  assert (run = Ok (saved, failed, world')) as Hrun by (vm_compute; reflexivity).
  destruct (@init_datasets_leaves_consistent_state sample.externals (Path.Path "data")
              false (take 2 controllers.datasets) sample.world saved failed world' Hrun)
    as (stored & Hstored & Hkeys & Hrefs & Hfound).
  exists saved, failed, world', stored.
  split_and!; [exact Hrun|exact Hstored| |exact Hkeys|exact Hrefs|exact Hfound].
  assert (Some (database.cs_iri <$> database.concept_schemes stored)
          = Some ["urn:scheme"; "urn:other"]) as Hschemes.
  { change (Some (database.cs_iri <$> database.concept_schemes stored))
      with ((fun db => database.cs_iri <$> database.concept_schemes db)
              <$> Some stored).
    rewrite <-Hstored. vm_compute. reflexivity. }
  injection Hschemes as ->. reflexivity.
Defined.

Lemma init_datasets_when_no_load_succeeds_witness :
  ∃ failed,
    @controllers.init_datasets sample.offline (Path.Path "data") false sample.world
    = Ok ([], failed,
          {| controllers.environ := controllers.environ sample.world;
             controllers.database := Some database.empty_db;
             controllers.files := ∅ |}) ∧
    length failed = 5%nat.
Proof.
  eexists. split.
  - apply (@init_datasets_when_no_load_succeeds sample.offline (Path.Path "data") false
             controllers.datasets sample.world "postgresql://localhost/glossary"
             (fun _ => mkException OtherError "HTTP Error 404: Not Found")).
    + reflexivity.
    + discriminate.
    + intros dataset _. reflexivity.
  - reflexivity.
Defined.
